(** * Integration.ipynb: the quadrature notebook

    A shallow embedding of the code cells of [Integration.ipynb].  The
    notebook defines the bounds [lb], [ub], the sample count [nplots], the
    integrand [fct] and its vectorized form [Fct]; it plots [fct] over
    [np.linspace(lb,ub,nplots)] and asks [scipy.integrate.quad] for a
    reference value of the integral.

    - Python values are a tagged union; the kernel's global namespace is a
      finite map from names to values.
    - Cells are computations in a state-and-exception monad over the kernel
      (namespace, pyplot state, standard output and a log of library calls).
    - [x ** 2] is read through the [PyPow2] interface, once per numeric type
      the notebook feeds to [fct]: Python [int], Python [float] (binary64)
      and the real numbers the floats stand for.  The kernel follows the
      run over the reals; what [fct] and [Fct] do on binary64 floats, where
      [**] can overflow, is followed at the type [Float64.float], with the
      C library behind [**] as a parameter.
    - The import cell binds the libraries.  NumPy's two functions are the
      module [np]; pyplot and [quad] are parameters of the run; none of them
      is an entry of the namespace, which holds the names the cells define. *)

From Stdlib Require Import ZArith Reals Lra Lia.
From Stdlib.Floats Require Import SpecFloat.
From stdpp Require Import base option list strings gmap.

Set Default Proof Using "Type".
Local Open Scope Z_scope.

(** ** Exceptions and results *)

(** The exception classes that can surface while the cells run; [LibraryError]
    stands for whatever a collaborator (matplotlib, SciPy) raises itself. *)
Inductive exn :=
| NameError (name : string)
| TypeError
| ValueError
| OverflowError
| LibraryError (tag : nat).

Inductive result (A : Type) :=
| Ok (a : A)
| Raise (e : exn).
Arguments Ok {A} a.
Arguments Raise {A} e.

Definition result_bind {A B} (f : A → result B) (r : result A) : result B :=
  match r with
  | Ok a => f a
  | Raise e => Raise e
  end.

#[global] Instance result_ret : MRet result := @Ok.
#[global] Instance result_mbind : MBind result := @result_bind.
#[global] Instance result_fmap : FMap result :=
  λ A B f r, match r with Ok a => Ok (f a) | Raise e => Raise e end.

(** ** The [**] protocol and the integrand *)

(** The only power the notebook takes is the square: [py_pow2 x], written
    [x **2], is Python's [x ** 2] at the numeric type [A]. *)
Class PyPow2 (A : Type) := py_pow2 : A → result A.
Notation "x **2" := (py_pow2 x) (at level 1, format "x  **2").

(** [def fct(x): output = x**2; return output] *)
Definition fct `{PyPow2 A} (x : A) : result A :=
  output ← x **2;
  mret output.

(** *** Python [int]: unbounded integers *)

#[global] Instance int_pow2 : PyPow2 Z := λ x, Ok (x ^ 2).

(** *** The reals, which the floats of the notebook stand for *)

#[global] Instance real_pow2 : PyPow2 R := λ x, Ok (x ^ 2)%R.

(** *** Python [float]: IEEE 754 binary64 *)

Module Float64.
Definition prec : Z := 53.
Definition emax : Z := 1024.
Definition float := spec_float.
Definition mul : float → float → float := SFmul prec emax.
Definition valid : float → bool := valid_binary prec emax.

Definition is_finite (x : float) : bool :=
  match x with
  | S754_zero _ | S754_finite _ _ _ => true
  | _ => false
  end.

Definition is_infinite (x : float) : bool :=
  match x with
  | S754_infinity _ => true
  | _ => false
  end.

(** [0.0 <= x]: a zero of either sign, or the sign bit is clear. *)
Definition is_nonneg (x : float) : bool :=
  match x with
  | S754_zero _ | S754_infinity false | S754_finite false _ _ => true
  | _ => false
  end.

Definition abs : float → float := SFabs.
Definition leb : float → float → bool := SFleb.

(** [2.0**512], printed [1.3407807929942597e+154]. *)
Definition two_pow_512 : float := S754_finite false 4503599627370496 460.

(** [1e200]: the float nearest to [10^200]. *)
Definition float_1e200 : float := S754_finite false 5883593420661338 612.

(** [0.5] *)
Definition half : float := S754_finite false 4503599627370496 (-53).

(** [0.25] *)
Definition quarter : float := S754_finite false 4503599627370496 (-54).

(** [sys.float_info.max], printed [1.7976931348623157e+308]. *)
Definition max_float : float := S754_finite false 9007199254740991 971.

(** [1.0] *)
Definition one : float := S754_finite false 4503599627370496 (-52).

(** [iv == 1.0] *)
Definition eqb : float → float → bool := SFeqb.

(** The double after and the double before. *)
Definition succ : float → float := SFsucc prec emax.
Definition pred : float → float := SFpred prec emax.

(** [y] is [x] or one of the two doubles next to [x]. *)
Definition within_one_ulp (y x : float) : Prop :=
  y = x ∨ y = succ x ∨ y = pred x.

(** The C library, of which [**] uses one function: [libm_pow2 x] is the
    double that [pow(x, 2.0)] returns at a positive finite [x].  The library
    is not part of the repository, and its result is not the correctly
    rounded square [mul x x] in general: it may be the double next to it.
    The value is therefore left open, within what the C libraries ensure:
    - when the square is too large for a double, which is when its
      correctly rounded value is infinite, [pow] returns [HUGE_VAL], that
      is [+inf];
    - when it is not, [pow] returns a finite double, which is not negative,
    - and which is less than one unit in the last place away from the
      square: it is the correctly rounded square or a double next to it. *)
Class Libm := {
  libm_pow2 : float → float;
  libm_pow2_overflow (m : positive) (e : Z) :
    let x := S754_finite false m e in
    valid x = true → is_infinite (mul x x) = true →
    libm_pow2 x = S754_infinity false;
  libm_pow2_in_range (m : positive) (e : Z) :
    let x := S754_finite false m e in
    valid x = true → is_infinite (mul x x) = false →
    is_finite (libm_pow2 x) = true ∧ is_nonneg (libm_pow2 x) = true;
  libm_pow2_accuracy (m : positive) (e : Z) :
    let x := S754_finite false m e in
    valid x = true → is_infinite (mul x x) = false →
    within_one_ulp (libm_pow2 x) (mul x x);
}.

(** [float_pow] of CPython at the exponent [2.0], in the order of its
    tests: a NaN is returned as it is, an infinity gives [+inf], a zero
    gives [+0.0]; a negative base is replaced by its absolute value (the
    exponent is even, so the result is not negated); the base [1.0] gives
    [1.0]; otherwise the C library's [pow(iv, 2.0)] is called, and an
    infinite result is a range error, which is turned into
    [OverflowError].  An underflow to zero is not an error. *)
Definition pow2 `{Libm} (x : float) : result float :=
  match x with
  | S754_nan => Ok S754_nan
  | S754_infinity _ => Ok (S754_infinity false)
  | S754_zero _ => Ok (S754_zero false)
  | S754_finite _ m e =>
      let iv := S754_finite false m e in
      if eqb iv one then Ok one
      else
        let ix := libm_pow2 iv in
        if is_infinite ix then Raise OverflowError else Ok ix
  end.
End Float64.

#[global] Instance float_pow2 `{Float64.Libm} : PyPow2 Float64.float :=
  Float64.pow2.

(** ** NumPy *)

Module np.
(** Modelled from the spec: [np.linspace] is NumPy's and not part of the
    repository.  The sample grid is taken over the reals, following
    NumPy's own computation: [step = (stop - start) / (num - 1)], the
    samples are [i * step + start] for [i] in [range(num)], and the last
    one is then overwritten with [stop]; a negative [num] is a
    [ValueError]. *)
Definition linspace (start stop : R) (num : Z) : result (list R) :=
  if num <? 0 then Raise ValueError
  else
    let div := num - 1 in
    let y := seq 0 (Z.to_nat num) in
    let y := if 0 <? div
             then let step := ((stop - start) / IZR div)%R in
                  (λ i, INR i * step)%R <$> y
             else (λ i, INR i * (stop - start))%R <$> y in
    let y := (λ v, v + start)%R <$> y in
    Ok (if 1 <? num then <[Z.to_nat (num - 1) := stop]> y else y).

(** Modelled from the spec: [np.vectorize] is NumPy's and not part of
    the repository.  It is the spec's "vectorized evaluation": the scalar
    function is applied to the elements of the array in order, and the
    first exception it raises is the exception of the whole call.  NumPy
    refuses an input of size 0 with a [ValueError] (no [otypes] is
    given). *)
Definition vectorize {A} (pyfunc : A → result A) (xs : list A) :
  result (list A) :=
  match xs with
  | [] => Raise ValueError
  | _ => mapM pyfunc xs
  end.
End np.

(** [Fct = np.vectorize(fct)], at any numeric type. *)
Definition Fct `{PyPow2 A} : list A → result (list A) := np.vectorize fct.

(** ** Python values and the kernel *)

(** The values the cells bind to names.  A [float] and the elements of an
    array are read as the reals they stand for: the floats of a run lie in
    [[0, 1]], where [fct] returns.  Floats at large are the matter of
    [Float64] and of [Fct] at that type. *)
Inductive value :=
| VInt (n : Z)
| VFloat (x : R)
| VArray (xs : list R)
| VFunction (f : R → result R)
| VVectorized (pyfunc : R → result R).

(** Calls to the collaborators that are not modelled (matplotlib's pyplot and
    SciPy's [quad]), with their arguments, in the order they are made. *)
Inductive call :=
| CallFigure
| CallPlot (xs ys : list R)
| CallXlabel (s : string)
| CallYlabel (s : string)
| CallShow
| CallQuad (func : R → result R) (a b : R).

Definition is_quad (c : call) : bool :=
  match c with CallQuad _ _ _ => true | _ => false end.

(** How a logged call ended. *)
Inductive outcome :=
| Returned
| Raised (e : exn).

Definition outcome_of {A} (r : result A) : outcome :=
  match r with Ok _ => Returned | Raise e => Raised e end.

(** What [print] wrote: the positional arguments of one call. *)
Inductive printed :=
| Print2 (label : string) (v : value).

Section Kernel.
(** [W] is the state of pyplot (its current figure); [Obj] is the type of
    the objects its functions return. *)
Context {W Obj : Type}.

Record pyplot := {
  plt_figure : W → result (Obj * W);
  plt_plot : list R → list R → W → result (Obj * W);
  plt_xlabel : string → W → result (Obj * W);
  plt_ylabel : string → W → result (Obj * W);
  plt_show : W → result (Obj * W);
}.

(** [quad(func, a, b)] returns the pair (value, estimate of the absolute
    error), or raises. *)
Definition quad_api : Type := (R → result R) → R → R → result (R * R).

Record kernel := {
  globals : gmap string value;
  figures : W;
  stdout : list printed;
  calls : list (call * outcome);
}.

Definition set_globals (g : gmap string value) (k : kernel) : kernel :=
  {| globals := g; figures := figures k; stdout := stdout k; calls := calls k |}.
Definition set_figures (w : W) (k : kernel) : kernel :=
  {| globals := globals k; figures := w; stdout := stdout k; calls := calls k |}.
Definition log_call (c : call) (o : outcome) (k : kernel) : kernel :=
  {| globals := globals k; figures := figures k; stdout := stdout k;
     calls := calls k ++ [(c, o)] |}.
Definition log_print (p : printed) (k : kernel) : kernel :=
  {| globals := globals k; figures := figures k; stdout := stdout k ++ [p];
     calls := calls k |}.

(** A cell, or a statement of one: it leaves a kernel behind whether it
    completes or raises. *)
Definition M (A : Type) : Type := kernel → result A * kernel.

Definition M_ret {A} (a : A) : M A := λ k, (Ok a, k).
Definition M_bind {A B} (f : A → M B) (m : M A) : M B :=
  λ k, match m k with
       | (Ok a, k') => f a k'
       | (Raise e, k') => (Raise e, k')
       end.
#[global] Instance M_mret : MRet M := @M_ret.
#[global] Instance M_mbind : MBind M := @M_bind.

Definition lift {A} (r : result A) : M A := λ k, (r, k).

(** Reading and binding a global name. *)
Definition load (name : string) : M value :=
  λ k, match globals k !! name with
       | Some v => (Ok v, k)
       | None => (Raise (NameError name), k)
       end.
Definition store (name : string) (v : value) : M unit :=
  λ k, (Ok tt, set_globals (<[name := v]> (globals k)) k).

(** The conversions the libraries apply to the arguments the cells pass:
    a number where a number is passed, an array where an array is.  What
    the libraries make of an argument of another kind (NumPy takes an array
    as a bound of [linspace] and returns a grid of more dimensions) is not
    followed: the call stops with [TypeError]. *)
Definition as_real (v : value) : result R :=
  match v with
  | VInt n => Ok (IZR n)
  | VFloat x => Ok x
  | _ => Raise TypeError
  end.
Definition as_index (v : value) : result Z :=
  match v with
  | VInt n => Ok n
  | _ => Raise TypeError
  end.
Definition as_array (v : value) : result (list R) :=
  match v with
  | VArray xs => Ok xs
  | _ => Raise TypeError
  end.
Definition as_callable (v : value) : result (R → result R) :=
  match v with
  | VFunction f => Ok f
  | _ => Raise TypeError
  end.

(** [np.vectorize(pyfunc)] *)
Definition np_vectorize (pyfunc : value) : M value :=
  f ← lift (as_callable pyfunc);
  mret (VVectorized f).

(** [np.linspace(start, stop, num)] *)
Definition np_linspace (start stop num : value) : M value :=
  a ← lift (as_real start);
  b ← lift (as_real stop);
  n ← lift (as_index num);
  xs ← lift (np.linspace a b n);
  mret (VArray xs).

(** [F(X)] for a vectorized function [F] *)
Definition call_value (F X : value) : M value :=
  match F with
  | VVectorized pyfunc =>
      xs ← lift (as_array X);
      ys ← lift (np.vectorize pyfunc xs);
      mret (VArray ys)
  | _ => lift (Raise TypeError)
  end.

(** A call into pyplot: it either moves pyplot's state and returns an
    object, or raises; the call is logged with its outcome. *)
Definition plt_call (c : call) (f : W → result (Obj * W)) : M Obj :=
  λ k, match f (figures k) with
       | Ok (o, w) => (Ok o, set_figures w (log_call c Returned k))
       | Raise e => (Raise e, log_call c (Raised e) k)
       end.

Variable plt : pyplot.
Variable quad : quad_api.

Definition plt_plot_values (X Y : value) : M Obj :=
  xs ← lift (as_array X);
  ys ← lift (as_array Y);
  plt_call (CallPlot xs ys) (plt_plot plt xs ys).

(** A call into SciPy's [quad]: it is logged; pyplot's state is not its
    concern. *)
Definition quad_call (f : R → result R) (a b : R) : M (R * R) :=
  λ k, let r := quad f a b in
       (r, log_call (CallQuad f a b) (outcome_of r) k).

(** [quad(func, a, b)] *)
Definition call_quad (func a b : value) : M (R * R) :=
  f ← lift (as_callable func);
  a ← lift (as_real a);
  b ← lift (as_real b);
  quad_call f a b.

(** [print(label, v)] *)
Definition print (label : string) (v : value) : M unit :=
  λ k, (Ok tt, log_print (Print2 label v) k).

(** *** The code cells *)

(** Cell [2]: the bounds, the sample count, the integrand and its
    vectorized form. *)
Definition cell_defs : M unit :=
  store "lb" (VInt 0);;
  store "ub" (VInt 1);;
  store "nplots" (VInt 100);;
  store "fct" (VFunction fct);;
  f ← load "fct";
  Fct ← np_vectorize f;
  store "Fct" Fct.

(** Cell [3]: the plot of the integrand over the sample grid. *)
Definition cell_plot : M unit :=
  plt_call CallFigure (plt_figure plt);;
  lb ← load "lb";
  ub ← load "ub";
  nplots ← load "nplots";
  X ← np_linspace lb ub nplots;
  store "X" X;;
  X1 ← load "X";
  Fct ← load "Fct";
  X2 ← load "X";
  Y ← call_value Fct X2;
  plt_plot_values X1 Y;;
  plt_call (CallXlabel "argument") (plt_xlabel plt "argument");;
  plt_call (CallYlabel "value of the function")
           (plt_ylabel plt "value of the function");;
  plt_call CallShow (plt_show plt);;
  mret tt.

(** Cell [4]: the reference value of the integral. *)
Definition cell_quad : M unit :=
  f ← load "fct";
  lb ← load "lb";
  ub ← load "ub";
  r ← call_quad f lb ub;
  store "reference" (VFloat r.1);;
  reference ← load "reference";
  print "Integral by reference method:" reference.

(** The notebook run from top to bottom; a cell that raises stops the
    run. *)
Definition notebook : M unit :=
  cell_defs;; cell_plot;; cell_quad.

(** A fresh kernel: nothing bound, nothing printed, no call made. *)
Definition fresh (w : W) : kernel :=
  {| globals := ∅; figures := w; stdout := []; calls := [] |}.
End Kernel.

Arguments pyplot : clear implicits.
Arguments kernel : clear implicits.
Arguments M : clear implicits.

(** ** The cells once their names are resolved *)

(** The bindings cell [2] adds to a namespace. *)
Definition defs_globals (g : gmap string value) : gmap string value :=
  <["Fct" := VVectorized fct]> (<["fct" := VFunction fct]>
    (<["nplots" := VInt 100]> (<["ub" := VInt 1]> (<["lb" := VInt 0]> g)))).

(** What is left of cell [3] when [lb], [ub], [nplots] and [Fct] are bound as
    by cell [2], for the grid [X] and the values [Y] over it. *)
Definition plot_steps {W Obj} (plt : pyplot W Obj) (X Y : list R) : M W unit :=
  plt_call CallFigure (plt_figure plt);;
  store "X" (VArray X);;
  plt_call (CallPlot X Y) (plt_plot plt X Y);;
  plt_call (CallXlabel "argument") (plt_xlabel plt "argument");;
  plt_call (CallYlabel "value of the function")
           (plt_ylabel plt "value of the function");;
  plt_call CallShow (plt_show plt);;
  mret tt.

(** What is left of cell [4] when [fct], [lb] and [ub] are bound as by cell
    [2]. *)
Definition quad_steps {W} (quad : quad_api) : M W unit :=
  r ← quad_call quad fct 0 1;
  store "reference" (VFloat r.1);;
  print "Integral by reference method:" (VFloat r.1).

(** The six library calls of a run, in order. *)
Definition expected_calls (X Y : list R) : list call :=
  [CallFigure; CallPlot X Y; CallXlabel "argument";
   CallYlabel "value of the function"; CallShow; CallQuad fct 0 1].

(** A computation binds no name outside [names]. *)
Definition writes_at_most {W A} (names : list string) (m : M W A) : Prop :=
  ∀ k name, name ∉ names → globals (m k).2 !! name = globals k !! name.

(** ** The recorded run *)

(** The value the stored output of cell [4] shows,
    [Integral by reference method: 0.33333333333333337]: the binary64 float
    that prints so, [6004799503160662 * 2^-54]. *)
Definition observed_reference : R :=
  (6004799503160662 / 18014398509481984)%R.

(** The real function a callable computes; where the callable raises there
    is no value and [0] stands in. *)
Definition integrand (f : R → result R) (x : R) : R :=
  match f x with
  | Ok y => y
  | Raise _ => 0%R
  end.

(** The antiderivative [x^3/3] of the integrand. *)
Definition cube_third (x : R) : R := (x ^ 3 / 3)%R.

(** ** Collaborators to run the cells against *)

(** A pyplot that draws nothing: its state counts the calls made to it. *)
Definition null_plt : pyplot nat unit :=
  {| plt_figure := λ w, Ok (tt, S w);
     plt_plot := λ _ _ w, Ok (tt, S w);
     plt_xlabel := λ _ w, Ok (tt, S w);
     plt_ylabel := λ _ w, Ok (tt, S w);
     plt_show := λ w, Ok (tt, S w) |}.

(** A pyplot without a display: [show] raises. *)
Definition headless_plt : pyplot nat unit :=
  {| plt_figure := λ w, Ok (tt, S w);
     plt_plot := λ _ _ w, Ok (tt, S w);
     plt_xlabel := λ _ w, Ok (tt, S w);
     plt_ylabel := λ _ w, Ok (tt, S w);
     plt_show := λ w, Raise (LibraryError 0) |}.

(** A [quad] that replays the recorded value, with an error estimate
    [abserr]. *)
Definition replay_quad (abserr : R) : quad_api :=
  λ _ _ _, Ok (observed_reference, abserr).

(** The kernel a run against [null_plt] and the replayed [quad] leaves. *)
Definition recorded_run : kernel nat :=
  (notebook null_plt (replay_quad 0) (fresh 0%nat)).2.

(** The kernel a run without a display leaves. *)
Definition headless_run : kernel nat :=
  (notebook headless_plt (replay_quad 0) (fresh 0%nat)).2.

(** ** Kernels for the cells run on their own *)

(** The kernel after the definitions cell alone. *)
Definition defs_kernel : kernel nat := (cell_defs (fresh 0%nat)).2.

(** The same kernel after the user rebinds [nplots] to [n]. *)
Definition with_nplots (n : Z) : kernel nat :=
  (store "nplots" (VInt n) defs_kernel).2.

(** The kernel a second run of the notebook leaves after [recorded_run]. *)
Definition rerun : kernel nat :=
  (notebook null_plt (replay_quad 0) recorded_run).2.

(** * Properties *)

(** ** The integrand on integers and reals *)

Lemma fct_int (n : Z) : fct n = Ok (n * n).
Proof. unfold fct, py_pow2, int_pow2. simpl. f_equal. lia. Qed.

Lemma fct_real (x : R) : fct x = Ok (x * x)%R.
Proof. unfold fct, py_pow2, real_pow2. simpl. f_equal. lra. Qed.

Lemma mapM_fct (xs : list R) : mapM fct xs = Ok ((λ x, x * x)%R <$> xs).
Proof.
  induction xs as [|x xs IH]; [done|].
  cbn [mapM]. rewrite fct_real. cbn. rewrite IH. done.
Qed.

Lemma vectorize_fct (xs : list R) :
  xs ≠ [] → np.vectorize fct xs = Ok ((λ x, x * x)%R <$> xs).
Proof. destruct xs; [done|]. intros _. unfold np.vectorize. apply mapM_fct. Qed.

Lemma Fct_real (xs : list R) :
  xs ≠ [] → Fct xs = Ok ((λ x, x * x)%R <$> xs).
Proof. apply vectorize_fct. Qed.

(** The elements of a vectorized call, at any element type. *)
Lemma mapM_Ok {A} (f : A → result A) (xs ys : list A) :
  mapM f xs = Ok ys ↔ Forall2 (λ x y, f x = Ok y) xs ys.
Proof.
  revert ys. induction xs as [|x xs IH]; intros ys; cbn [mapM].
  - split; [intros [= <-]; constructor|by intros ->%Forall2_nil_inv_l].
  - split.
    + destruct (f x) as [y|e] eqn:Hy; [|discriminate].
      destruct (mapM f xs) as [zs|e] eqn:Hzs; [|discriminate].
      cbn. intros [= <-]. constructor; [done|]. by apply IH.
    + intros (y & zs & Hy & Hzs & ->)%Forall2_cons_inv_l.
      apply IH in Hzs. by rewrite Hy, Hzs.
Qed.

Lemma mapM_Raise {A} (f : A → result A) (xs : list A) (e : exn) :
  mapM f xs = Raise e →
  ∃ j x, xs !! j = Some x ∧ f x = Raise e ∧
         ∀ j' x', (j' < j)%nat → xs !! j' = Some x' → ∃ y, f x' = Ok y.
Proof.
  induction xs as [|x xs IH]; cbn [mapM]; [discriminate|].
  destruct (f x) as [y|e'] eqn:Hy.
  - destruct (mapM f xs) as [zs|e'] eqn:Hzs; [discriminate|].
    cbn. intros [= ->]. destruct (IH eq_refl) as (j & x' & Hj & Hx' & Hbefore).
    exists (S j), x'. split; [done|]. split; [done|].
    intros [|j'] x'' Hlt Hl.
    + injection Hl as <-. by exists y.
    + apply (Hbefore j'); [lia|done].
  - cbn. intros [= ->]. exists 0%nat, x. split; [done|]. split; [done|].
    intros j' x' Hlt. lia.
Qed.

Lemma Forall_exists_Forall2 {A B} (P : A → B → Prop) (l : list A) :
  (∃ k, Forall2 P l k) ↔ Forall (λ x, ∃ y, P x y) l.
Proof.
  split.
  - intros [k Hk]. induction Hk; constructor; eauto.
  - induction 1 as [|x l [y Hy] _ [k IH]].
    + exists []. constructor.
    + exists (y :: k). by constructor.
Qed.

Lemma Fct_Ok `{PyPow2 A} (X Y : list A) :
  Fct X = Ok Y ↔ X ≠ [] ∧ Forall2 (λ x y, fct x = Ok y) X Y.
Proof.
  unfold Fct, np.vectorize. destruct X as [|x X].
  - split; [discriminate|]. by intros [? _].
  - rewrite mapM_Ok. split; [by intros ?|by intros [_ ?]].
Qed.

Lemma linspace_lookup a b n :
  2 ≤ n →
  ∃ X, np.linspace a b n = Ok X ∧ length X = Z.to_nat n ∧
       ∀ i, (i < Z.to_nat n)%nat →
            X !! i = Some (a + INR i * ((b - a) / IZR (n - 1)))%R.
Proof.
  intros Hn. unfold np.linspace.
  destruct (n <? 0) eqn:H0; [lia|].
  destruct (0 <? n - 1) eqn:H1; [|lia].
  destruct (1 <? n) eqn:H2; [|lia].
  eexists; split; [reflexivity|]. split.
  { by rewrite length_insert, !length_fmap, length_seq. }
  intros i Hi.
  destruct (decide (i = Z.to_nat (n - 1))) as [->|Hne].
  - rewrite list_lookup_insert_eq by (rewrite !length_fmap, length_seq; lia).
    f_equal. rewrite INR_IZR_INZ, Z2Nat.id by lia.
    assert (IZR (n - 1) ≠ 0%R) by (apply not_0_IZR; lia).
    field. done.
  - rewrite list_lookup_insert_ne by done.
    rewrite !list_lookup_fmap, lookup_seq_lt by done. cbn. f_equal. lra.
Qed.

(** ** The analytical integral *)

Section Analysis.
Local Open Scope R_scope.

Lemma integrand_fct (x : R) : integrand fct x = x ^ 2.
Proof. unfold integrand. rewrite fct_real. simpl. lra. Qed.

Lemma cube_third_derivable : derivable cube_third.
Proof. unfold cube_third. intros x. reg. Qed.

Lemma cube_third_derive (x : R) :
  derive_pt cube_third x (cube_third_derivable x) = x ^ 2.
Proof.
  apply derive_pt_eq_0.
  unfold cube_third.
  assert (derivable_pt_lim (fun y => y ^ 3 / 3) x (INR 3 * x ^ 2 / 3)) as H.
  { unfold Rdiv. apply derivable_pt_lim_scal_right. apply (derivable_pt_lim_pow x 3). }
  replace (x ^ 2) with (INR 3 * x ^ 2 / 3) by (simpl; field). exact H.
Qed.

Lemma cube_third_C1 : continuity (derive cube_third cube_third_derivable).
Proof.
  intros x. apply continuity_pt_locally_ext with (f := fun y => y ^ 2) (a := 1).
  - lra.
  - intros y _. unfold derive. by rewrite cube_third_derive.
  - reg.
Qed.

Lemma integrand_fct_continuous (x : R) : continuity_pt (integrand fct) x.
Proof.
  apply continuity_pt_locally_ext with (f := fun y => y ^ 2) (a := 1).
  - lra.
  - intros y _. by rewrite integrand_fct.
  - reg.
Qed.

Lemma integral_fct (a b : R) (pr : Riemann_integrable (integrand fct) a b) :
  a <= b → RiemannInt pr = b ^ 3 / 3 - a ^ 3 / 3.
Proof.
  intros Hab.
  set (F := mkC1 cube_third_C1).
  assert (Riemann_integrable (derive F (diff0 F)) a b) as pr'.
  { apply continuity_implies_RiemannInt; [done|]. intros x _. apply cube_third_C1. }
  trans (RiemannInt pr').
  - apply RiemannInt_P18; [done|]. intros x _.
    rewrite integrand_fct. unfold derive. simpl. by rewrite cube_third_derive.
  - by rewrite (RiemannInt_P33 F pr' Hab).
Qed.

End Analysis.

(** ** Binary64: when the square overflows *)

Lemma digits2_pos_bounds (m : positive) :
  2 ^ (Zpos (digits2_pos m) - 1) <= Zpos m < 2 ^ Zpos (digits2_pos m).
Proof.
  induction m as [m IH|m IH|]; cbn [digits2_pos]; [| |simpl; lia].
  all: rewrite Pos2Z.inj_succ.
  all: set (d := Z.pos (digits2_pos m)) in *.
  all: assert (2 ^ d = 2 * 2 ^ (d - 1)) as Hd
         by (rewrite <-Z.pow_succ_r by lia; f_equal; lia).
  all: replace (Z.succ d - 1) with d by lia.
  all: rewrite Z.pow_succ_r by lia; lia.
Qed.

Lemma Zdigits2_le (n k : Z) : 0 ≤ k → 0 <= n < 2 ^ k → Zdigits2 n ≤ k.
Proof.
  intros Hk [Hn Hlt]. destruct n as [|p|p]; [simpl; lia| |lia].
  cbn [Zdigits2]. pose proof (digits2_pos_bounds p) as [Hlo _].
  destruct (Z_le_gt_dec (Z.pos (digits2_pos p)) k) as [|Hgt]; [done|].
  assert (2 ^ k ≤ 2 ^ (Z.pos (digits2_pos p) - 1)) by (apply Z.pow_le_mono_r; lia).
  lia.
Qed.

Lemma Zdigits2_ge (n k : Z) : 0 ≤ k → 2 ^ k ≤ n → k + 1 ≤ Zdigits2 n.
Proof.
  intros Hk Hn. assert (0 < 2 ^ k) by (apply Z.pow_pos_nonneg; lia).
  destruct n as [|p|p]; [lia| |lia].
  cbn [Zdigits2]. pose proof (digits2_pos_bounds p) as [_ Hhi].
  destruct (Z_le_gt_dec (k + 1) (Z.pos (digits2_pos p))) as [|Hgt]; [done|].
  assert (2 ^ (Z.pos (digits2_pos p)) ≤ 2 ^ k) by (apply Z.pow_le_mono_r; lia).
  lia.
Qed.

Lemma shr_1_m (mrs : shr_record) : 0 ≤ shr_m mrs → shr_m (shr_1 mrs) = shr_m mrs / 2.
Proof.
  destruct mrs as [m r s]. cbn [shr_m]. intros Hm.
  destruct m as [|[p|p|]|p]; cbn [shr_1 shr_m]; [reflexivity| | |reflexivity|lia].
  - apply Z.div_unique with 1; lia.
  - apply Z.div_unique with 0; lia.
Qed.

Lemma iter_shr_1_m (p : positive) (mrs : shr_record) :
  0 ≤ shr_m mrs → shr_m (SpecFloat.iter_pos shr_1 p mrs) = shr_m mrs / 2 ^ Zpos p.
Proof.
  revert mrs. induction p as [p IH|p IH|]; intros mrs Hm; cbn [SpecFloat.iter_pos].
  - assert (0 ≤ shr_m (shr_1 mrs)) by (rewrite shr_1_m by done; apply Z.div_pos; lia).
    assert (0 ≤ shr_m (SpecFloat.iter_pos shr_1 p (shr_1 mrs))).
    { rewrite IH by done. apply Z.div_pos; [done|]. apply Z.pow_pos_nonneg; lia. }
    rewrite !IH, shr_1_m by done.
    rewrite !Z.div_div by (try apply Z.pow_pos_nonneg; lia).
    f_equal. rewrite Pos2Z.inj_xI.
    replace (2 * Z.pos p + 1) with (1 + (Z.pos p + Z.pos p)) by lia.
    rewrite !Z.pow_add_r by lia. reflexivity.
  - assert (0 ≤ shr_m (SpecFloat.iter_pos shr_1 p mrs)).
    { rewrite IH by done. apply Z.div_pos; [done|]. apply Z.pow_pos_nonneg; lia. }
    rewrite !IH by done.
    rewrite !Z.div_div by (try apply Z.pow_pos_nonneg; lia).
    f_equal. rewrite Pos2Z.inj_xO, <-Z.pow_add_r by lia. f_equal. lia.
  - rewrite shr_1_m by done. reflexivity.
Qed.

Section Binary.
Variables prec emax : Z.

Lemma shr_fexp_exponent (m e : Z) (l : location) :
  (shr_fexp prec emax m e l).2 = Z.max e (fexp prec emax (Zdigits2 m + e)).
Proof.
  unfold shr_fexp, shr.
  destruct (fexp prec emax (Zdigits2 m + e) - e) as [|p|p] eqn:E; cbn [snd]; lia.
Qed.

Lemma shr_fexp_mantissa (m e : Z) :
  0 ≤ m →
  shr_m (shr_fexp prec emax m e loc_Exact).1
  = m / 2 ^ Z.max 0 (fexp prec emax (Zdigits2 m + e) - e).
Proof.
  intros Hm. unfold shr_fexp, shr.
  destruct (fexp prec emax (Zdigits2 m + e) - e) as [|p|p] eqn:E; cbn [fst].
  - cbn. by rewrite Z.div_1_r.
  - rewrite iter_shr_1_m by done. reflexivity.
  - cbn. by rewrite Z.div_1_r.
Qed.
End Binary.

Lemma round_nearest_even_bounds (m : Z) (l : location) :
  m <= round_nearest_even m l <= m + 1.
Proof.
  unfold round_nearest_even. destruct l as [|[]]; try lia. destruct (Z.even m); lia.
Qed.

Lemma div_pow2_lt (M D n k : Z) :
  0 <= M < 2 ^ D → 0 ≤ n → 0 ≤ k → D ≤ n + k → M / 2 ^ n < 2 ^ k.
Proof.
  intros [HM0 HM] Hn Hk HD.
  apply Z.div_lt_upper_bound; [apply Z.pow_pos_nonneg; lia|].
  rewrite <-Z.pow_add_r by lia.
  eapply Z.lt_le_trans; [exact HM|]. apply Z.pow_le_mono_r; lia.
Qed.

Lemma div_pow2_ge (M D n : Z) :
  2 ^ D ≤ M → 0 ≤ n ≤ D → 2 ^ (D - n) ≤ M / 2 ^ n.
Proof.
  intros HM Hn.
  apply Z.div_le_lower_bound; [apply Z.pow_pos_nonneg; lia|].
  rewrite <-Z.pow_add_r by lia. by replace (n + (D - n)) with D by lia.
Qed.

Lemma Zdigits2_bounds (n : Z) :
  0 < n → 2 ^ (Zdigits2 n - 1) <= n < 2 ^ Zdigits2 n.
Proof. destruct n as [|p|p]; [lia| |lia]. intros _. apply digits2_pos_bounds. Qed.

Lemma fexp_binary64 (x : Z) : fexp Float64.prec Float64.emax x = Z.max (x - 53) (-1074).
Proof. reflexivity. Qed.

Lemma valid_finite (s : bool) (m : positive) (e : Z) :
  Float64.valid (S754_finite s m e) = true →
  Z.max (Zpos (digits2_pos m) + e - 53) (-1074) = e ∧ e ≤ 971.
Proof.
  change (Float64.valid (S754_finite s m e))
    with ((fexp Float64.prec Float64.emax (Zpos (digits2_pos m) + e) =? e) && (e <=? 971)).
  rewrite fexp_binary64.
  intros [H1 H2]%andb_prop. apply Z.eqb_eq in H1. apply Z.leb_le in H2. lia.
Qed.

Lemma mul_finite (s : bool) (m : positive) (e : Z) :
  Float64.mul (S754_finite s m e) (S754_finite s m e)
  = binary_round_aux Float64.prec Float64.emax false (Zpos m * Zpos m) (e + e) loc_Exact.
Proof. unfold Float64.mul, SFmul. by destruct s. Qed.

(** The two rounding steps of [binary_round_aux], named. *)
Lemma binary_round_aux_steps (s : bool) (M E : Z) :
  0 ≤ M →
  ∃ m1 mz e1 ez,
    e1 = Z.max E (Z.max (Zdigits2 M + E - 53) (-1074)) ∧
    M / 2 ^ (e1 - E) <= m1 <= M / 2 ^ (e1 - E) + 1 ∧
    ez = Z.max e1 (Z.max (Zdigits2 m1 + e1 - 53) (-1074)) ∧
    mz = m1 / 2 ^ (ez - e1) ∧
    binary_round_aux Float64.prec Float64.emax s M E loc_Exact
    = match mz with
      | Z0 => S754_zero s
      | Zpos m => if ez <=? 971 then S754_finite s m ez else S754_infinity s
      | Zneg _ => S754_nan
      end.
Proof.
  intros HM. unfold binary_round_aux.
  pose proof (shr_fexp_exponent Float64.prec Float64.emax M E loc_Exact) as He1.
  pose proof (shr_fexp_mantissa Float64.prec Float64.emax M E HM) as Hm1.
  destruct (shr_fexp Float64.prec Float64.emax M E loc_Exact) as [mrs1 e1].
  cbn [fst snd] in He1, Hm1.
  set (m1 := round_nearest_even (shr_m mrs1) (loc_of_shr_record mrs1)).
  pose proof (round_nearest_even_bounds (shr_m mrs1) (loc_of_shr_record mrs1)) as Hr.
  fold m1 in Hr. clearbody m1.
  assert (0 ≤ shr_m mrs1) as H0.
  { rewrite Hm1. apply Z.div_pos; [done|]. apply Z.pow_pos_nonneg; lia. }
  assert (0 ≤ m1) as Hm1' by lia.
  pose proof (shr_fexp_exponent Float64.prec Float64.emax m1 e1 loc_Exact) as He2.
  pose proof (shr_fexp_mantissa Float64.prec Float64.emax m1 e1 Hm1') as Hm2.
  destruct (shr_fexp Float64.prec Float64.emax m1 e1 loc_Exact) as [mrs2 e2].
  cbn [fst snd] in He2, Hm2.
  rewrite fexp_binary64 in *.
  exists m1, (shr_m mrs2), e1, e2.
  replace (e1 - E) with (Z.max 0 (Z.max (Zdigits2 M + E - 53) (-1074) - E)) by lia.
  replace (e2 - e1) with (Z.max 0 (Z.max (Zdigits2 m1 + e1 - 53) (-1074) - e1)) by lia.
  rewrite <-Hm1. repeat split; lia.
Qed.

Lemma pow2_52 : 2 ^ 52 = 4503599627370496. Proof. reflexivity. Qed.
Lemma pow2_53 : 2 ^ 53 = 9007199254740992. Proof. reflexivity. Qed.

(** A normal float of exponent field at least 460 has magnitude at least
    [2^512]: its square does not fit. *)
Lemma mul_self_overflow (s : bool) (m : positive) (e : Z) :
  Float64.valid (S754_finite s m e) = true → 460 ≤ e →
  Float64.mul (S754_finite s m e) (S754_finite s m e) = S754_infinity false.
Proof.
  intros [Hc He]%valid_finite Hlo. rewrite mul_finite.
  pose proof (digits2_pos_bounds m) as Hm.
  assert (Zpos (digits2_pos m) = 53) as Hd by lia. rewrite Hd in Hm.
  change (53 - 1) with 52 in Hm. rewrite pow2_52, pow2_53 in Hm.
  set (M := Zpos m * Zpos m) in *.
  assert (2 ^ 104 ≤ M < 2 ^ 106) as HM.
  { change (2 ^ 104) with (4503599627370496 * 4503599627370496).
    change (2 ^ 106) with (9007199254740992 * 9007199254740992). subst M. nia. }
  assert (0 < M) as HM0 by (subst M; lia).
  pose proof (Zdigits2_ge M 104 ltac:(lia) ltac:(lia)) as HD1.
  pose proof (Zdigits2_le M 106 ltac:(lia) ltac:(lia)) as HD2.
  pose proof (Zdigits2_bounds M HM0) as HMD.
  destruct (binary_round_aux_steps false M (e + e) ltac:(lia))
    as (m1 & mz & e1 & ez & He1 & Hm1 & Hez & Hmz & ->).
  set (D := Zdigits2 M) in *.
  assert (e1 - (e + e) = D - 53) as Hn by lia. rewrite Hn in Hm1.
  assert (2 ^ 52 ≤ M / 2 ^ (D - 53)) as Hlo1.
  { replace 52 with ((D - 1) - (D - 53)) by lia. apply div_pow2_ge; lia. }
  assert (M / 2 ^ (D - 53) < 2 ^ 53) as Hhi1.
  { apply (div_pow2_lt M D); lia. }
  rewrite pow2_52 in Hlo1. rewrite pow2_53 in Hhi1.
  pose proof (Zdigits2_ge m1 52 ltac:(lia) ltac:(rewrite pow2_52; lia)) as Hd1.
  pose proof (Zdigits2_le m1 54 ltac:(lia) ltac:(change (2 ^ 54) with 18014398509481984; lia)) as Hd2.
  assert (ez - e1 = 0 ∨ ez - e1 = 1) as [Hs|Hs] by lia; rewrite Hs in Hmz.
  - rewrite Z.pow_0_r, Z.div_1_r in Hmz. subst mz.
    destruct m1 as [|p|p]; [lia| |lia].
    destruct (ez <=? 971) eqn:E; [apply Z.leb_le in E; lia|done].
  - assert (2251799813685248 ≤ mz) by (subst mz; apply Z.div_le_lower_bound; lia).
    destruct mz as [|p|p]; [lia| |lia].
    destruct (ez <=? 971) eqn:E; [apply Z.leb_le in E; lia|done].
Qed.

(** Below [2^512] the rounded square is at most the largest float: it is a
    finite float, and its sign bit is clear. *)
Lemma mul_self_in_range (s : bool) (m : positive) (e : Z) :
  Float64.valid (S754_finite s m e) = true → e ≤ 459 →
  Float64.is_finite (Float64.mul (S754_finite s m e) (S754_finite s m e)) = true ∧
  Float64.is_nonneg (Float64.mul (S754_finite s m e) (S754_finite s m e)) = true.
Proof.
  intros [Hc He]%valid_finite Hhi. rewrite mul_finite.
  pose proof (digits2_pos_bounds m) as Hm.
  set (d := Zpos (digits2_pos m)) in *.
  assert (1 ≤ d ≤ 53) as Hd by lia.
  assert (Zpos m < 2 ^ 53) as Hm53.
  { eapply Z.lt_le_trans; [apply Hm|]. apply Z.pow_le_mono_r; lia. }
  rewrite pow2_53 in Hm53.
  set (M := Zpos m * Zpos m) in *.
  assert (0 < M) as HM0 by (subst M; lia).
  assert (M < 2 ^ 106) as HM.
  { change (2 ^ 106) with (9007199254740992 * 9007199254740992). subst M. nia. }
  pose proof (Zdigits2_le M 106 ltac:(lia) ltac:(lia)) as HD2.
  pose proof (Zdigits2_bounds M HM0) as HMD.
  destruct (binary_round_aux_steps false M (e + e) ltac:(lia))
    as (m1 & mz & e1 & ez & He1 & Hm1 & Hez & Hmz & ->).
  set (D := Zdigits2 M) in *.
  assert (1 ≤ D) as HD1 by (subst D; destruct M; simpl; lia).
  assert (0 ≤ M / 2 ^ (e1 - (e + e))) as Hq0.
  { apply Z.div_pos; [lia|]. apply Z.pow_pos_nonneg; lia. }
  assert (0 ≤ mz) as Hmz0.
  { subst mz. apply Z.div_pos; [lia|]. apply Z.pow_pos_nonneg; lia. }
  destruct mz as [|p|p]; [done| |lia].
  destruct (ez <=? 971) eqn:E; [done|]. apply Z.leb_gt in E. exfalso.
  (* the mantissa after the first shift has at most [k] bits *)
  set (k := Z.max 0 (D - (e1 - (e + e)))).
  assert (M / 2 ^ (e1 - (e + e)) < 2 ^ k) as Hq.
  { apply (div_pow2_lt M D); lia. }
  destruct (Z_le_gt_dec e 458) as [He458|He459].
  - assert (m1 < 2 ^ (k + 1)) as Hm1k by (rewrite Z.pow_add_r, Z.pow_1_r by lia; lia).
    pose proof (Zdigits2_le m1 (k + 1) ltac:(lia) ltac:(lia)). lia.
  - assert (e = 459) as -> by lia. assert (d = 53) as Hd53 by lia.
    destruct (Z_le_gt_dec D 105) as [HD105|HD106].
    + assert (m1 < 2 ^ (k + 1)) as Hm1k by (rewrite Z.pow_add_r, Z.pow_1_r by lia; lia).
      pose proof (Zdigits2_le m1 (k + 1) ltac:(lia) ltac:(lia)). lia.
    + assert (D = 106) as HD by lia. rewrite HD in *.
      assert (e1 - (459 + 459) = 53) as Hn by lia. rewrite Hn in *.
      assert (M / 2 ^ 53 < 9007199254740991) as Hcarry.
      { apply Z.div_lt_upper_bound; [lia|]. rewrite pow2_53. subst M. nia. }
      pose proof (Zdigits2_le m1 53 ltac:(lia) ltac:(rewrite pow2_53; lia)). lia.
Qed.

(** [abs(x) >= 2.0**512] on a valid finite float reads off the exponent. *)
Lemma leb_two_pow_512 (s : bool) (m : positive) (e : Z) :
  Float64.valid (S754_finite s m e) = true →
  Float64.leb Float64.two_pow_512 (Float64.abs (S754_finite s m e)) = true ↔ 460 ≤ e.
Proof.
  intros [Hc He]%valid_finite.
  unfold Float64.leb, Float64.abs, Float64.two_pow_512, SFleb, SFabs, SFcompare.
  destruct (Z.compare_spec 460 e) as [<-|Hlt|Hgt].
  - pose proof (digits2_pos_bounds m) as Hm.
    assert (Zpos (digits2_pos m) = 53) as Hd by lia. rewrite Hd in Hm.
    change (53 - 1) with 52 in Hm. rewrite pow2_52 in Hm. destruct Hm as [Hm _].
    change (PosDef.Pos.compare_cont Eq 4503599627370496 m)
      with (4503599627370496 ?= m)%positive.
    rewrite Pos2Z.inj_compare.
    destruct (Z.compare_spec 4503599627370496 (Z.pos m)) as [E|E|E].
    + split; intros _; [lia|reflexivity].
    + split; intros _; [lia|reflexivity].
    + exfalso. clear -E Hm. lia.
  - split; intros _; [lia|reflexivity].
  - split; intros H; [discriminate|lia].
Qed.

(** The rounded square of a float is a zero, a finite float or [+inf]. *)
Lemma mul_self_range (m : positive) (e : Z) :
  let x := S754_finite false m e in
  (Float64.is_infinite (Float64.mul x x) = true →
   Float64.mul x x = S754_infinity false) ∧
  (Float64.is_infinite (Float64.mul x x) = false →
   Float64.is_finite (Float64.mul x x) = true ∧
   Float64.is_nonneg (Float64.mul x x) = true).
Proof.
  cbv zeta. rewrite mul_finite.
  destruct (binary_round_aux_steps false (Zpos m * Zpos m) (e + e) ltac:(lia))
    as (m1 & mz & e1 & ez & He1 & Hm1 & Hez & Hmz & ->).
  assert (0 ≤ Zpos m * Zpos m / 2 ^ (e1 - (e + e))) as Hq0.
  { apply Z.div_pos; [lia|]. apply Z.pow_pos_nonneg; lia. }
  assert (0 ≤ mz) as Hmz0.
  { subst mz. apply Z.div_pos; [lia|]. apply Z.pow_pos_nonneg; lia. }
  destruct mz as [|p|p]; [done| |lia].
  by destruct (ez <=? 971).
Qed.

(** The square is too large for a double from [2^512] on. *)
Lemma mul_self_infinite_iff (s : bool) (m : positive) (e : Z) :
  Float64.valid (S754_finite s m e) = true →
  Float64.is_infinite (Float64.mul (S754_finite s m e) (S754_finite s m e)) = true
  ↔ 460 ≤ e.
Proof.
  intros Hv. destruct (Z_le_gt_dec 460 e) as [He|He].
  - by rewrite (mul_self_overflow s m e Hv He).
  - destruct (mul_self_in_range s m e Hv ltac:(lia)) as [Hfin _].
    split; [|lia]. by destruct (Float64.mul _ _).
Qed.

(** A C library whose [pow(x, 2.0)] is the correctly rounded square. *)
Definition exact_libm : Float64.Libm :=
  {| Float64.libm_pow2 := λ x, Float64.mul x x;
     Float64.libm_pow2_overflow := λ m e _, proj1 (mul_self_range m e);
     Float64.libm_pow2_in_range := λ m e _, proj2 (mul_self_range m e);
     Float64.libm_pow2_accuracy := λ m e _ _, or_introl eq_refl |}.

Lemma eqb_one (m : positive) (e : Z) :
  Float64.eqb (S754_finite false m e) Float64.one = true →
  S754_finite false m e = Float64.one.
Proof.
  unfold Float64.eqb, Float64.one, SFeqb, SFcompare.
  destruct (Z.compare_spec e (-52)) as [->|Hlt|Hgt]; [|discriminate..].
  rewrite Pos.compare_cont_spec. cbn [Pos.switch_Eq].
  destruct (Pos.compare_spec m 4503599627370496) as [->|?|?];
    [reflexivity|discriminate..].
Qed.

Lemma mul_sign (s : bool) (m : positive) (e : Z) :
  Float64.mul (S754_finite s m e) (S754_finite s m e)
  = Float64.mul (S754_finite false m e) (S754_finite false m e).
Proof. by rewrite !mul_finite. Qed.

Section Libm.
Context `{Float64.Libm}.

Lemma pow2_finite (s : bool) (m : positive) (e : Z) :
  Float64.valid (S754_finite s m e) = true →
  (460 ≤ e → Float64.pow2 (S754_finite s m e) = Raise OverflowError) ∧
  (e ≤ 459 →
   ∃ y, Float64.pow2 (S754_finite s m e) = Ok y ∧
        Float64.is_finite y = true ∧ Float64.is_nonneg y = true ∧
        Float64.within_one_ulp y
          (Float64.mul (S754_finite s m e) (S754_finite s m e))).
Proof.
  intros Hv. assert (Float64.valid (S754_finite false m e) = true) as Hv' by exact Hv.
  pose proof (mul_self_infinite_iff false m e Hv') as Hinf.
  rewrite (mul_sign s). unfold Float64.pow2. cbv zeta.
  split; intros He.
  - destruct (Float64.eqb _ _) eqn:E1.
    { apply eqb_one in E1. injection E1 as _ He'. lia. }
    rewrite (Float64.libm_pow2_overflow m e Hv') by (by apply Hinf). done.
  - destruct (Float64.eqb _ _) eqn:E1.
    { exists Float64.one. apply eqb_one in E1. rewrite E1.
      repeat split; [done..|]. left. by vm_compute. }
    assert (Float64.is_infinite
              (Float64.mul (S754_finite false m e) (S754_finite false m e))
            = false) as Hfit.
    { apply not_true_is_false. intros E%Hinf. lia. }
    destruct (Float64.libm_pow2_in_range m e Hv' Hfit) as [Hfin Hpos].
    exists (Float64.libm_pow2 (S754_finite false m e)).
    repeat split; [|done|done|by apply Float64.libm_pow2_accuracy].
    by destruct (Float64.libm_pow2 _).
Qed.

Lemma pow2_raises_iff (x : Float64.float) :
  Float64.valid x = true →
  Float64.pow2 x = Raise OverflowError ↔
  Float64.is_finite x = true ∧
  Float64.leb Float64.two_pow_512 (Float64.abs x) = true.
Proof.
  intros Hv. destruct x as [s|s| |s m e].
  - split; [discriminate|]. intros [_ H']. discriminate.
  - split; [discriminate|]. intros [H' _]. discriminate.
  - split; [discriminate|]. intros [H' _]. discriminate.
  - rewrite (leb_two_pow_512 s m e Hv).
    destruct (pow2_finite s m e Hv) as [Hhi Hlo].
    destruct (Z_le_gt_dec 460 e) as [He|He].
    + rewrite Hhi by exact He. split; [intros _; by split|reflexivity].
    + destruct Hlo as (y & -> & _); [lia|]. split; [discriminate|]. intros [_ H']. lia.
Qed.

Lemma pow2_below (x : Float64.float) :
  Float64.valid x = true →
  Float64.is_finite x = true →
  Float64.leb Float64.two_pow_512 (Float64.abs x) = false →
  ∃ y, Float64.pow2 x = Ok y ∧
       Float64.is_finite y = true ∧ Float64.is_nonneg y = true ∧
       Float64.within_one_ulp y (Float64.mul x x).
Proof.
  intros Hv Hfin Hlt. destruct x as [s|s| |s m e]; try discriminate.
  - eexists. repeat split; [done..|]. left. by destruct s.
  - assert (e ≤ 459) as He.
    { destruct (Z_le_gt_dec 460 e) as [He|He]; [|lia].
      apply (leb_two_pow_512 s m e Hv) in He. congruence. }
    destruct (pow2_finite s m e Hv) as [_ Hlo]. by apply Hlo.
Qed.

Lemma pow2_returns_below (x : Float64.float) :
  Float64.valid x = true →
  Float64.is_finite x = true →
  Float64.leb Float64.two_pow_512 (Float64.abs x) = false →
  ∃ y, Float64.pow2 x = Ok y ∧
       Float64.is_finite y = true ∧ Float64.is_nonneg y = true.
Proof.
  intros Hv Hfin Hlt.
  destruct (pow2_below x Hv Hfin Hlt) as (y & Hy & Hf & Hn & _). by exists y.
Qed.



Lemma pow2_nonneg (x y : Float64.float) :
  Float64.valid x = true → Float64.is_finite x = true →
  Float64.pow2 x = Ok y → Float64.is_nonneg y = true.
Proof.
  intros Hv Hfin. destruct x as [s|s| |s m e]; try discriminate.
  - by intros [= <-].
  - destruct (pow2_finite s m e Hv) as [Hhi Hlo].
    destruct (Z_le_gt_dec 460 e) as [He|He].
    + rewrite Hhi by exact He. discriminate.
    + destruct Hlo as (y' & -> & _ & Hn & _); [lia|]. by intros [= <-].
Qed.

(** The power does not look at the sign of its base. *)
Lemma pow2_opp (x : Float64.float) : Float64.pow2 (SFopp x) = Float64.pow2 x.
Proof. by destruct x. Qed.

Lemma fct_float (x : Float64.float) : fct x = Float64.pow2 x.
Proof.
  unfold fct, py_pow2, float_pow2, mbind, result_mbind, result_bind.
  by destruct (Float64.pow2 x).
Qed.

End Libm.

Lemma float_1e200_nearest :
  Z.abs (5883593420661338 * 2 ^ 612 - 10 ^ 200) ≤ 2 ^ 611.
Proof. by vm_compute. Qed.

(** ** Running the cells *)

Section Run.
Context {W Obj : Type} (plt : pyplot W Obj) (quad : quad_api).
Implicit Types k : kernel W.

Local Opaque np.linspace np.vectorize.

Lemma bind_run {A B} (m : M W A) (f : A → M W B) k :
  (m ≫= f) k = match m k with
               | (Ok a, k') => f a k'
               | (Raise e, k') => (Raise e, k')
               end.
Proof. reflexivity. Qed.

Lemma load_bound name v k : globals k !! name = Some v → load name k = (Ok v, k).
Proof. unfold load. by intros ->. Qed.

Lemma cell_defs_run k :
  cell_defs k = (Ok tt, set_globals (defs_globals (globals k)) k).
Proof.
  unfold cell_defs.
  cbv [mbind M_mbind M_bind store load np_vectorize lift mret M_mret M_ret
       set_globals globals].
  rewrite lookup_insert_eq. reflexivity.
Qed.

Lemma bind_ext {A B} (m : M W A) (f g : A → M W B) k :
  (∀ a k', m k = (Ok a, k') → f a k' = g a k') → (m ≫= f) k = (m ≫= g) k.
Proof.
  intros H. rewrite !bind_run. destruct (m k) as [[a|e] k'] eqn:E; [|done].
  by apply H.
Qed.

Lemma plt_call_globals c (f : W → result (Obj * W)) k :
  globals (plt_call c f k).2 = globals k.
Proof. unfold plt_call. by destruct (f (figures k)) as [[o w]|e]. Qed.

Lemma bind_load {B} name v (f : value → M W B) k :
  globals k !! name = Some v → (load name ≫= f) k = f v k.
Proof. intros H. by rewrite bind_run, (load_bound name v). Qed.

Lemma bind_lift_ok {A B} (a : A) (f : A → M W B) k : (lift (Ok a) ≫= f) k = f a k.
Proof. reflexivity. Qed.

Lemma bind_ret {A B} (a : A) (f : A → M W B) k : (mret a ≫= f) k = f a k.
Proof. reflexivity. Qed.

Lemma bind_assoc {A B C} (m : M W A) (f : A → M W B) (g : B → M W C) k :
  ((m ≫= f) ≫= g) k = (m ≫= λ a, f a ≫= g) k.
Proof. rewrite !bind_run. by destruct (m k) as [[a|e] k']. Qed.

Lemma bind_store {B} name v (f : unit → M W B) k :
  (store name v ≫= f) k = f tt (set_globals (<[name := v]> (globals k)) k).
Proof. reflexivity. Qed.

Ltac msimpl :=
  repeat (rewrite bind_assoc || rewrite bind_lift_ok || rewrite bind_ret
          || rewrite bind_store).

Lemma cell_plot_run k X Y :
  globals k !! "lb" = Some (VInt 0) →
  globals k !! "ub" = Some (VInt 1) →
  globals k !! "nplots" = Some (VInt 100) →
  globals k !! "Fct" = Some (VVectorized fct) →
  np.linspace 0 1 100 = Ok X →
  np.vectorize fct X = Ok Y →
  cell_plot plt k = plot_steps plt X Y k.
Proof.
  intros Hlb Hub Hn HF HX HY.
  unfold cell_plot, plot_steps.
  apply bind_ext. intros o1 k1 E1.
  assert (globals k1 = globals k) as Hg.
  { by rewrite <-(plt_call_globals CallFigure (plt_figure plt) k), E1. }
  rewrite (bind_load "lb" (VInt 0)) by congruence.
  rewrite (bind_load "ub" (VInt 1)) by congruence.
  rewrite (bind_load "nplots" (VInt 100)) by congruence.
  unfold np_linspace. cbn [as_real as_index]. msimpl.
  rewrite HX. msimpl.
  rewrite (bind_load "X" (VArray X)) by apply lookup_insert_eq.
  rewrite (bind_load "Fct" (VVectorized fct))
    by (cbn; rewrite lookup_insert_ne by done; congruence).
  rewrite (bind_load "X" (VArray X)) by apply lookup_insert_eq.
  unfold call_value, plt_plot_values. cbn [as_array]. msimpl.
  rewrite HY. msimpl. reflexivity.
Qed.

Lemma cell_quad_run k :
  globals k !! "fct" = Some (VFunction fct) →
  globals k !! "lb" = Some (VInt 0) →
  globals k !! "ub" = Some (VInt 1) →
  cell_quad quad k = quad_steps quad k.
Proof.
  intros Hf Hlb Hub. unfold cell_quad, quad_steps.
  rewrite (bind_load "fct" (VFunction fct)) by done.
  rewrite (bind_load "lb" (VInt 0)) by done.
  rewrite (bind_load "ub" (VInt 1)) by done.
  unfold call_quad. cbn [as_callable as_real]. msimpl.
  apply bind_ext. intros r k1 E1. msimpl.
  rewrite (bind_load "reference" (VFloat r.1)) by apply lookup_insert_eq.
  reflexivity.
Qed.

Lemma bind_plt_call_globals {B} c (f : W → result (Obj * W)) (m : M W B) k r k' :
  (plt_call c f;; m) k = (r, k') →
  (∀ k1 r1 k2, globals k1 = globals k → m k1 = (r1, k2) → globals k2 = globals k1) →
  globals k' = globals k.
Proof.
  intros E Hm. rewrite bind_run in E.
  pose proof (plt_call_globals c f k) as Hg.
  destruct (plt_call c f k) as [[o|e] k1]; simpl in Hg.
  - apply Hm in E; congruence.
  - by inversion E; subst.
Qed.

Lemma plot_steps_globals X Y k r k' :
  plot_steps plt X Y k = (r, k') →
  globals k' = globals k ∨ globals k' = <["X" := VArray X]> (globals k).
Proof.
  unfold plot_steps. intros E. rewrite bind_run in E.
  pose proof (plt_call_globals CallFigure (plt_figure plt) k) as Hg.
  destruct (plt_call _ _ k) as [[o|e] k1]; simpl in Hg.
  - right. rewrite bind_store in E. rewrite <-Hg.
    eapply bind_plt_call_globals in E; [done|]. intros k2 r2 k3 _ E2.
    eapply bind_plt_call_globals in E2; [done|]. intros k4 r4 k5 _ E4.
    eapply bind_plt_call_globals in E4; [done|]. intros k6 r6 k7 _ E6.
    eapply bind_plt_call_globals in E6; [done|]. intros k8 r8 k9 _ E8.
    by inversion E8.
  - left. inversion E; by subst.
Qed.

Lemma notebook_run w :
  ∃ X, np.linspace 0 1 100 = Ok X ∧ length X = 100%nat ∧
       (∀ i, (i < 100)%nat → X !! i = Some (INR i / 99)%R) ∧
       notebook plt quad (fresh w)
       = (cell_defs;; plot_steps plt X ((λ x, x * x)%R <$> X);; quad_steps quad) (fresh w).
Proof.
  destruct (linspace_lookup 0 1 100) as (X & HX & Hlen & Hi); [lia|].
  exists X. split; [done|]. split; [done|]. split.
  { intros i Hlt. rewrite Hi by (simpl; lia). f_equal.
    replace (100 - 1) with 99 by lia. lra. }
  assert (np.vectorize fct X = Ok ((λ x, x * x)%R <$> X)) as HY.
  { apply vectorize_fct. by intros ->. }
  unfold notebook. apply bind_ext. intros [] k1 E1.
  rewrite cell_defs_run in E1. injection E1 as <-.
  rewrite (bind_run (cell_plot plt)), (bind_run (plot_steps _ _ _)).
  rewrite (cell_plot_run _ X ((λ x, x * x)%R <$> X)) by done.
  destruct (plot_steps _ _ _ _) as [[[]|e] k2] eqn:E; [|done].
  apply plot_steps_globals in E as [E|E]; apply cell_quad_run; rewrite E; done.
Qed.
(** *** What a cell may bind *)

Lemma writes_ret {A} names (a : A) : writes_at_most (W := W) names (mret a).
Proof. by intros k name _. Qed.

Lemma writes_lift {A} names (r : result A) : writes_at_most (W := W) names (lift r).
Proof. by intros k name _. Qed.

Lemma writes_load names name : writes_at_most (W := W) names (load name).
Proof. intros k n _. unfold load. by destruct (globals k !! name). Qed.

Lemma writes_store names name v :
  name ∈ names → writes_at_most (W := W) names (store name v).
Proof.
  intros Hin k n Hn. cbn. apply lookup_insert_ne. intros ->. done.
Qed.

Lemma writes_print names label v : writes_at_most (W := W) names (print label v).
Proof. by intros k name _. Qed.

Lemma writes_plt_call names c (f : W → result (Obj * W)) :
  writes_at_most names (plt_call c f).
Proof. intros k name _. by rewrite plt_call_globals. Qed.

Lemma writes_quad_call names f a b : writes_at_most (W := W) names (quad_call quad f a b).
Proof. by intros k name _. Qed.

Lemma writes_bind {A B} names (m : M W A) (f : A → M W B) :
  writes_at_most names m → (∀ a, writes_at_most names (f a)) →
  writes_at_most names (m ≫= f).
Proof.
  intros Hm Hf k name Hn. rewrite bind_run.
  specialize (Hm k name Hn). destruct (m k) as [[a|e] k']; [|done].
  rewrite <-Hm. by apply Hf.
Qed.

Create HintDb writes discriminated.
#[local] Hint Resolve writes_ret writes_lift writes_load writes_print
  writes_plt_call writes_quad_call : writes.
#[local] Hint Extern 1 (writes_at_most _ (store _ _)) =>
  apply writes_store; set_solver : writes.

Ltac writes :=
  repeat first
    [ progress auto with writes
    | apply writes_bind; [|intros ?]
    | match goal with
      | |- writes_at_most _ (call_value ?F _) => unfold call_value; destruct F
      end ].

Lemma cell_plot_writes : writes_at_most ["X"] (cell_plot plt).
Proof. unfold cell_plot, np_linspace, plt_plot_values. writes. Qed.

Lemma cell_quad_writes : writes_at_most (W := W) ["reference"] (cell_quad quad).
Proof. unfold cell_quad, call_quad. writes. Qed.

End Run.

(** ** The outcomes of a run *)

Ltac run_cases H :=
  cbv [mbind M_mbind M_bind cell_defs plot_steps quad_steps plt_call quad_call
       store load print mret M_mret M_ret lift np_vectorize as_callable
       set_globals set_figures log_call log_print fresh
       globals figures stdout calls] in H;
  rewrite ?lookup_insert_eq in H;
  repeat match type of H with
  | context [match ?f ?w with Ok _ => _ | Raise _ => _ end] =>
      destruct (f w) as [[? ?]|?] eqn:?
  end;
  cbv [outcome_of] in H.

Lemma grid_lookup (X : list R) :
  np.linspace 0 1 100 = Ok X →
  length X = 100%nat ∧ ∀ i, (i < 100)%nat → X !! i = Some (INR i / 99)%R.
Proof.
  intros HX. destruct (linspace_lookup 0 1 100) as (X' & HX' & Hlen & Hi); [lia|].
  assert (X' = X) as -> by congruence. split; [done|].
  intros i Hlt. rewrite Hi by (simpl; lia). f_equal.
  replace (100 - 1) with 99 by lia. lra.
Qed.

Section Outcomes.
Context {W Obj : Type} (plt : pyplot W Obj) (quad : quad_api).

(** A run completes exactly when the six library calls return, and then the
    kernel it leaves is known. *)
Lemma notebook_completed_iff (w : W) (k : kernel W) :
  notebook plt quad (fresh w) = (Ok tt, k) ↔
  ∃ X o1 w1 o2 w2 o3 w3 o4 w4 o5 w5 v abserr,
    np.linspace 0 1 100 = Ok X ∧
    plt_figure plt w = Ok (o1, w1) ∧
    plt_plot plt X ((λ x, x * x)%R <$> X) w1 = Ok (o2, w2) ∧
    plt_xlabel plt "argument" w2 = Ok (o3, w3) ∧
    plt_ylabel plt "value of the function" w3 = Ok (o4, w4) ∧
    plt_show plt w4 = Ok (o5, w5) ∧
    quad fct 0%R 1%R = Ok (v, abserr) ∧
    k = {| globals := <["reference" := VFloat v]>
                        (<["X" := VArray X]> (defs_globals ∅));
           figures := w5;
           stdout := [Print2 "Integral by reference method:" (VFloat v)];
           calls := (λ c, (c, Returned))
                      <$> expected_calls X ((λ x, x * x)%R <$> X) |}.
Proof.
  destruct (notebook_run plt quad w) as (X & HX & Hlen & Hi & ->).
  split.
  - intros H. run_cases H; try discriminate. injection H as <-.
    exists X. do 12 eexists. by repeat split.
  - intros (X' & o1 & w1 & o2 & w2 & o3 & w3 & o4 & w4 & o5 & w5 & v & abserr
            & HX' & H1 & H2 & H3 & H4 & H5 & H6 & ->).
    assert (X' = X) as -> by congruence.
    cbv [mbind M_mbind M_bind cell_defs plot_steps quad_steps plt_call quad_call
       store load print mret M_mret M_ret lift np_vectorize as_callable
       set_globals set_figures log_call log_print fresh
       globals figures stdout calls].
    rewrite ?lookup_insert_eq. rewrite H1, H2, H3, H4, H5, H6. reflexivity.
Qed.
End Outcomes.

(** ** Tactics for the outcomes of a run *)

Ltac split_last l k :=
  match l with
  | [?x] => k (@nil (call * outcome)) x
  | ?x :: ?l' => split_last l' ltac:(fun i y => k (x :: i) y)
  end.

Ltac run_outcomes H X HX :=
  match type of H with
  | notebook ?plt ?quad (fresh ?w) = _ =>
      let Hlen := fresh "Hlen" in
      let Hi := fresh "Hi" in
      let E := fresh "E" in
      destruct (notebook_run plt quad w) as (X & HX & Hlen & Hi & E);
      rewrite E in H; clear E Hlen Hi;
      run_cases H; injection H as <- <-; cbn [app]
  end.

Ltac lookup_cases H :=
  repeat (apply lookup_insert_Some in H as [[<- H]|[? H]];
          [try discriminate|]);
  try (rewrite lookup_empty in H; discriminate).

(** ** The properties of the notebook *)

(** C2, the failing input: the largest float, [1.7976931348623157e+308], is
    a real scalar, and [fct] does not return its square, nor anything:
    [x**2] raises [OverflowError], whatever the C library. *)
Lemma fct_no_square_at_max_float :
  Float64.valid Float64.max_float = true ∧
  Float64.is_finite Float64.max_float = true ∧
  (∀ libm : Float64.Libm, fct Float64.max_float = Raise OverflowError) ∧
  ¬ ∃ (libm : Float64.Libm) (y : Float64.float), fct Float64.max_float = Ok y.
Proof.
  assert (∀ libm : Float64.Libm,
            fct Float64.max_float = Raise OverflowError) as E.
  { intros libm. rewrite fct_float. apply pow2_raises_iff; [reflexivity|].
    split; reflexivity. }
  split; [reflexivity|]. split; [reflexivity|]. split; [exact E|].
  intros (libm & y & Hy). by rewrite E in Hy.
Qed.

(** C2, as amended: [fct(x)] is [x**2] as Python takes it at the type of
    [x], exception included.  That is the square on every real and on every
    integer.  On a finite float it is a float only where the square fits:
    below [2.0**512] in magnitude [fct] returns a float, finite and not
    negative, which is the correctly rounded square or a double next to
    it; from [2.0**512] on it returns nothing and raises [OverflowError].
    Whatever the outcome of a run, [fct] is bound, and it is the one name
    that cells [2] to [4] bind to a function: the program defines no other
    function. *)
Theorem fct_squares {libm : Float64.Libm} {W Obj} (plt : pyplot W Obj)
    (quad : quad_api) (w : W) (r : result unit) (k : kernel W)
    (x : Float64.float) :
  notebook plt quad (fresh w) = (r, k) →
  Float64.valid x = true →
  (∀ A (pow : PyPow2 A) (a : A), fct a = a **2) ∧
  (∀ y : R, fct y = Ok (y * y)%R) ∧
  (∀ n : Z, fct n = Ok (n * n)) ∧
  (Float64.is_finite x = true →
   Float64.leb Float64.two_pow_512 (Float64.abs x) = false →
   ∃ y, fct x = Ok y ∧
        Float64.is_finite y = true ∧ Float64.is_nonneg y = true ∧
        Float64.within_one_ulp y (Float64.mul x x)) ∧
  (Float64.is_finite x = true →
   Float64.leb Float64.two_pow_512 (Float64.abs x) = true →
   fct x = Raise OverflowError ∧ ¬ ∃ y, fct x = Ok y) ∧
  globals k !! "fct" = Some (VFunction fct) ∧
  ∀ name f, globals k !! name = Some (VFunction f) → name = "fct" ∧ f = fct.
Proof.
  intros Hrun Hv.
  split.
  { intros A pow a. unfold fct. by destruct (a **2). }
  split; [apply fct_real|]. split; [apply fct_int|].
  split; [rewrite fct_float; by apply pow2_below|].
  split.
  { intros Hfin Hle.
    assert (fct x = Raise OverflowError) as E
      by (rewrite fct_float; by apply pow2_raises_iff).
    split; [exact E|]. intros [y Hy]. by rewrite E in Hy. }
  run_outcomes Hrun X HX; cbn [globals].
  all: split; [done|].
  all: intros name f Hl; lookup_cases Hl.
  all: by injection Hl as <-.
Qed.

(** C3: a completed run calls [quad] exactly once, on [fct], [lb] and [ub];
    [quad] returns a pair, of which the first component is bound to
    [reference] and printed; the error estimate is dropped: a [quad] that
    returns the same value with another estimate leaves the same kernel. *)
Theorem quad_called_once {W Obj} (plt : pyplot W Obj) (quad : quad_api)
    (w : W) (k : kernel W) :
  notebook plt quad (fresh w) = (Ok tt, k) →
  ∃ v abserr,
    globals k !! "fct" = Some (VFunction fct) ∧
    globals k !! "lb" = Some (VInt 0) ∧
    globals k !! "ub" = Some (VInt 1) ∧
    List.filter (λ c, is_quad c.1) (calls k)
      = [(CallQuad fct (IZR 0) (IZR 1), Returned)] ∧
    quad fct (IZR 0) (IZR 1) = Ok (v, abserr) ∧
    globals k !! "reference" = Some (VFloat (v, abserr).1) ∧
    stdout k = [Print2 "Integral by reference method:" (VFloat v)] ∧
    ∀ (quad' : quad_api) abserr',
      quad' fct (IZR 0) (IZR 1) = Ok (v, abserr') →
      notebook plt quad' (fresh w) = (Ok tt, k).
Proof.
  intros (X & o1 & w1 & o2 & w2 & o3 & w3 & o4 & w4 & o5 & w5 & v & abserr
          & HX & H1 & H2 & H3 & H4 & H5 & H6 & ->)%notebook_completed_iff.
  exists v, abserr. cbn [globals calls stdout]. repeat split; try done.
  intros quad' abserr' H6'. apply notebook_completed_iff.
  exists X. do 12 eexists. by repeat split.
Qed.

(** C4, the failing input: in the array [[1.0, 1e200]] the index [0] is
    valid and [fct(X[0])] is [1.0], but [Fct(X)] has no element: the call
    raises the [OverflowError] of [fct(1e200)], whatever the C library. *)
Lemma Fct_raises_on_float_array :
  [Float64.one; Float64.float_1e200] !! 0%nat = Some Float64.one ∧
  (∀ libm : Float64.Libm,
     fct Float64.one = Ok Float64.one ∧
     Fct [Float64.one; Float64.float_1e200] = Raise OverflowError) ∧
  ¬ ∃ (libm : Float64.Libm) (Y : list Float64.float),
      Fct [Float64.one; Float64.float_1e200] = Ok Y.
Proof.
  assert (∀ libm : Float64.Libm,
            Fct [Float64.one; Float64.float_1e200] = Raise OverflowError) as E.
  { intros libm.
    assert (fct Float64.float_1e200 = Raise OverflowError) as E2.
    { rewrite fct_float. apply pow2_raises_iff; [reflexivity|].
      split; reflexivity. }
    unfold Fct, np.vectorize. cbn [mapM].
    change (fct Float64.one) with (Ok Float64.one). by rewrite E2. }
  split; [reflexivity|]. split; [by split|].
  intros (libm & Y & HY). by rewrite E in HY.
Qed.

(** C4, as amended: [Fct] is [np.vectorize(fct)] after cell [2], and calling
    it is one application to the whole array that changes nothing in the
    kernel.  Where [Fct(X)] returns, the result has the size of [X] and at
    every valid index [i] it holds what [fct] gives on [X[i]]:
    [Fct(X)[i] = fct(X[i])].  It returns exactly when [X] is not empty and
    [fct] returns on every element: so on every array of reals that is not
    empty, and on every such array of floats of magnitude below [2.0**512].
    Otherwise it raises: [ValueError] on an empty array, and else what
    [fct] raises on the first element where it fails. *)
Theorem Fct_elementwise `{PyPow2 A} (X Y : list A) (i : nat) (x : A) :
  Fct X = Ok Y →
  X !! i = Some x →
  length Y = length X ∧
  (∃ y, Y !! i = Some y ∧ fct x = Ok y) ∧
  (∀ X' : list A,
     (∃ Y', Fct X' = Ok Y') ↔
     X' ≠ [] ∧ Forall (λ x', ∃ y, fct x' = Ok y) X') ∧
  (∀ (X' : list A) (e : exn),
     Fct X' = Raise e →
     (X' = [] ∧ e = ValueError) ∨
     ∃ j x', X' !! j = Some x' ∧ fct x' = Raise e ∧
             ∀ j' x'', (j' < j)%nat → X' !! j' = Some x'' →
                       ∃ y, fct x'' = Ok y) ∧
  (∀ X' : list R, X' ≠ [] → Fct X' = Ok ((λ x', x' * x')%R <$> X')) ∧
  (∀ (libm : Float64.Libm) (X' : list Float64.float),
     X' ≠ [] →
     Forall (λ x', Float64.valid x' = true ∧
                   Float64.is_finite x' = true ∧
                   Float64.leb Float64.two_pow_512 (Float64.abs x') = false) X' →
     ∃ Y', Fct X' = Ok Y') ∧
  (∀ W (k : kernel W) (X' : list R),
     globals (cell_defs k).2 !! "Fct" = Some (VVectorized fct) ∧
     call_value (VVectorized fct) (VArray X') k = (VArray <$> Fct X', k)).
Proof.
  intros [Hne HXY]%Fct_Ok Hx.
  split; [symmetry; by eapply Forall2_length|].
  split.
  { destruct (Forall2_lookup_l _ _ _ _ _ HXY Hx) as (y & Hy & Hf). by exists y. }
  split.
  { intros X'. rewrite <-Forall_exists_Forall2. split.
    - intros [Y' [Hne' HY']%Fct_Ok]. split; [done|by exists Y'].
    - intros [Hne' [Y' HY']]. exists Y'. by apply Fct_Ok. }
  split.
  { intros X' e. unfold Fct, np.vectorize. destruct X' as [|x' X'].
    - intros [= <-]. by left.
    - intros He. right. by apply mapM_Raise. }
  split; [apply Fct_real|].
  split.
  { intros libm X' Hne' Hall.
    assert (∃ Y', Forall2 (λ x' y, fct x' = Ok y) X' Y') as [Y' HY'].
    { apply Forall_exists_Forall2. eapply Forall_impl; [exact Hall|].
      intros x' (Hv & Hfin & Hlt). cbn beta. rewrite fct_float.
      destruct (pow2_below x' Hv Hfin Hlt) as (y & Hy & _). by exists y. }
    exists Y'. by apply Fct_Ok. }
  intros W k X'. split.
  { rewrite cell_defs_run. cbn. unfold defs_globals. apply lookup_insert_eq. }
  unfold call_value. cbn [as_array]. rewrite bind_lift_ok.
  unfold Fct. by destruct (np.vectorize fct X').
Qed.

(** C5: no name is rebound after the cell that defines it.  Cell [3] binds
    nothing but [X] and cell [4] nothing but [reference], from whatever
    kernel they start; so whatever the outcome of a run, [lb], [ub],
    [nplots], [fct] and [Fct] hold the values cell [2] gave them.  What
    pyplot returns is dropped: the reference value and the printed line of a
    completed run are those of a run with any other pyplot, and those of cells
    [2] and [4] run without the plotting cell. *)
Theorem bindings_preserved {W Obj} (plt : pyplot W Obj) (quad : quad_api)
    (w : W) (r : result unit) (k : kernel W) :
  notebook plt quad (fresh w) = (r, k) →
  writes_at_most ["X"] (cell_plot plt) ∧
  writes_at_most (W := W) ["reference"] (cell_quad quad) ∧
  globals k !! "lb" = Some (VInt 0) ∧
  globals k !! "ub" = Some (VInt 1) ∧
  globals k !! "nplots" = Some (VInt 100) ∧
  globals k !! "fct" = Some (VFunction fct) ∧
  globals k !! "Fct" = Some (VVectorized fct) ∧
  (r = Ok tt →
   (∃ k', (cell_defs;; cell_quad quad) (fresh w) = (Ok tt, k') ∧
          globals k' !! "reference" = globals k !! "reference" ∧
          stdout k' = stdout k) ∧
   (∀ W' Obj' (plt' : pyplot W' Obj') (w' : W') (k' : kernel W'),
      notebook plt' quad (fresh w') = (Ok tt, k') →
      globals k' !! "reference" = globals k !! "reference" ∧
      stdout k' = stdout k)).
Proof.
  intros H.
  split; [apply cell_plot_writes|]. split; [apply cell_quad_writes|].
  assert (globals k !! "lb" = Some (VInt 0) ∧
          globals k !! "ub" = Some (VInt 1) ∧
          globals k !! "nplots" = Some (VInt 100) ∧
          globals k !! "fct" = Some (VFunction fct) ∧
          globals k !! "Fct" = Some (VVectorized fct)) as Hvals.
  { clear -H. run_outcomes H X HX; cbn [globals]; by simplify_map_eq. }
  destruct Hvals as (Hlb & Hub & Hn & Hf & HF). do 5 (split; [done|]).
  clear Hlb Hub Hn Hf HF. intros ->.
  apply notebook_completed_iff in H
    as (X & o1 & w1 & o2 & w2 & o3 & w3 & o4 & w4 & o5 & w5 & v & abserr
        & HX & H1 & H2 & H3 & H4 & H5 & H6 & ->).
  cbn [globals stdout]. split.
  - eexists. split; [|split].
    + rewrite bind_run, cell_defs_run. rewrite cell_quad_run by done.
      unfold quad_steps. rewrite bind_run. unfold quad_call. rewrite H6.
      reflexivity.
    + cbn. by rewrite !lookup_insert_eq.
    + reflexivity.
  - intros W' Obj' plt' w' k'
      (X' & p1 & t1 & p2 & t2 & p3 & t3 & p4 & t4 & p5 & t5 & v' & abserr'
       & HX' & G1 & G2 & G3 & G4 & G5 & G6 & ->)%notebook_completed_iff.
    assert (v' = v) as -> by congruence.
    cbn. by rewrite !lookup_insert_eq.
Qed.

(** C6: the cells handle no exception.  The outcome of a run is the outcome
    of the last library call it made: if that call raised [e], the run
    raises [e]; every call before it returned; no call is made twice (the
    calls are an initial part of the six calls of the notebook); and a call
    wrapper raises what the library raises. *)
Theorem library_exceptions_propagate {W Obj} (plt : pyplot W Obj)
    (quad : quad_api) (w : W) (r : result unit) (k : kernel W) :
  notebook plt quad (fresh w) = (r, k) →
  (∃ cs c o X,
     calls k = cs ++ [(c, o)] ∧
     Forall (λ c, c.2 = Returned) cs ∧
     r = match o with Returned => Ok tt | Raised e => Raise e end ∧
     (calls k).*1 `prefix_of` expected_calls X ((λ x, x * x)%R <$> X) ∧
     (o = Returned → (calls k).*1 = expected_calls X ((λ x, x * x)%R <$> X))) ∧
  (∀ e, r = Raise e ↔ ∃ cs c, calls k = cs ++ [(c, Raised e)]) ∧
  (∀ c (f : W → result (Obj * W)) k0 e,
     f (figures k0) = Raise e → (plt_call c f k0).1 = Raise e) ∧
  (∀ f a b (k0 : kernel W) e,
     quad f a b = Raise e → (quad_call quad f a b k0).1 = Raise e).
Proof.
  intros H.
  assert (∃ cs c o X,
     calls k = cs ++ [(c, o)] ∧
     Forall (λ c, c.2 = Returned) cs ∧
     r = match o with Returned => Ok tt | Raised e => Raise e end ∧
     (calls k).*1 `prefix_of` expected_calls X ((λ x, x * x)%R <$> X) ∧
     (o = Returned → (calls k).*1 = expected_calls X ((λ x, x * x)%R <$> X)))
    as Hlast.
  { run_outcomes H X HX; cbn [calls].
    all: match goal with
         | |- ∃ cs c o X, ?l = _ ∧ _ =>
             split_last l ltac:(fun i y => exists i, y.1, y.2, X)
         end.
    all: cbn [fst snd app]; split; [reflexivity|].
    all: split; [repeat constructor|].
    all: split; [reflexivity|].
    all: split; [by eexists|].
    all: by intros [=]. }
  split; [done|].
  destruct Hlast as (cs & c & o & X & Hc & Hcs & -> & _).
  split.
  { intros e. split.
    - destruct o as [|e']; intros [= ->]. by exists cs, c.
    - intros (cs' & c' & Hc'). rewrite Hc in Hc'.
      apply app_inj_tail in Hc' as [_ [= _ ->]]. done. }
  split.
  - intros c0 f k0 e Hf. unfold plt_call. by rewrite Hf.
  - intros f a b k0 e Hq. unfold quad_call. by rewrite Hq.
Qed.

(** C8: the square is nonnegative: on every real (and on every integer, and
    on every finite float where [fct] returns), so on every value plotted
    (the plot is over points of [[0, 1]]), and the integral of [fct] over
    [[a, b]] with [a <= b] is nonnegative. *)
Theorem fct_nonnegative {libm : Float64.Libm} {W Obj} (plt : pyplot W Obj)
    (quad : quad_api) (w : W) (r : result unit) (k : kernel W) (a b : R) :
  notebook plt quad (fresh w) = (r, k) →
  (a <= b)%R →
  (∀ x : R, ∃ y, fct x = Ok y ∧ (0 <= y)%R) ∧
  (∀ n : Z, ∃ m, fct n = Ok m ∧ 0 ≤ m) ∧
  (∀ x y : Float64.float,
     Float64.valid x = true → Float64.is_finite x = true →
     fct x = Ok y → Float64.is_nonneg y = true) ∧
  (∀ xs ys o, (CallPlot xs ys, o) ∈ calls k →
     Forall (λ y, 0 <= y)%R ys ∧ Forall (λ x, 0 <= x <= 1)%R xs ∧
     Forall2 (λ x y, fct x = Ok y) xs ys) ∧
  inhabited (Riemann_integrable (integrand fct) a b) ∧
  ∀ pr : Riemann_integrable (integrand fct) a b, (0 <= RiemannInt pr)%R.
Proof.
  intros H Hab.
  split; [intros x; exists (x * x)%R; split; [apply fct_real|nra]|].
  split; [intros n; exists (n * n); split; [apply fct_int|nia]|].
  split; [intros x y Hv Hfin; rewrite fct_float; by apply pow2_nonneg|].
  split.
  { assert (∃ X, np.linspace 0 1 100 = Ok X ∧
              ∀ xs ys o, (CallPlot xs ys, o) ∈ calls k →
                         xs = X ∧ ys = (λ x, x * x)%R <$> X) as (X & HX & Hk).
    { run_outcomes H X HX; exists X; (split; [done|]); cbn [calls].
      all: intros xs ys oc Hin.
      all: repeat (apply elem_of_cons in Hin as [Heq|Hin]; [by simplify_eq|]).
      all: by apply elem_of_nil in Hin. }
    intros xs ys o [-> ->]%Hk. destruct (grid_lookup X HX) as [Hlen Hi].
    split; [apply Forall_fmap, Forall_forall; intros x _; simpl; nra|].
    split.
    - apply Forall_lookup. intros i x Hx.
      assert (i < 100)%nat as Hlt by (rewrite <-Hlen; by eapply lookup_lt_Some).
      rewrite Hi in Hx by done.
      assert (x = (INR i / 99)%R) as -> by congruence.
      assert (0 <= INR i)%R by apply pos_INR.
      assert (INR i <= INR 99)%R as Hle by (apply le_INR; lia).
      rewrite (INR_IZR_INZ 99) in Hle. change (Z.of_nat 99) with 99 in Hle.
      lra.
    - apply Forall2_fmap_r, Forall_Forall2_diag, Forall_forall.
      intros x _. apply fct_real. }
  split.
  { constructor. apply continuity_implies_RiemannInt; [done|].
    intros x _. apply integrand_fct_continuous. }
  intros pr. rewrite (integral_fct a b pr Hab).
  assert (a ^ 3 <= b ^ 3)%R; [|lra].
  assert (0 <= (b - a) * (a * a + a * b + b * b))%R; [|lra].
  apply Rmult_le_pos; nra.
Qed.

(** C9: in a completed run the grid [X] has [nplots = 100] points, starts at
    [lb = 0], ends at [ub = 1], consecutive points are [1/99] apart, the
    points increase strictly, and the plot is drawn over [X] while [quad]
    integrates from the first point of [X] to the last. *)
Theorem grid_uniform {W Obj} (plt : pyplot W Obj) (quad : quad_api)
    (w : W) (k : kernel W) :
  notebook plt quad (fresh w) = (Ok tt, k) →
  ∃ X,
    globals k !! "X" = Some (VArray X) ∧
    np.linspace (IZR 0) (IZR 1) 100 = Ok X ∧
    length X = 100%nat ∧
    X !! 0%nat = Some 0%R ∧
    X !! 99%nat = Some 1%R ∧
    (∀ i x y, X !! i = Some x → X !! S i = Some y → (y - x = 1 / 99)%R) ∧
    (∀ i j x y, (i < j)%nat → X !! i = Some x → X !! j = Some y → (x < y)%R) ∧
    (∃ Y, (CallPlot X Y, Returned) ∈ calls k) ∧
    (∃ a b, (CallQuad fct a b, Returned) ∈ calls k ∧
            head X = Some a ∧ last X = Some b).
Proof.
  intros (X & o1 & w1 & o2 & w2 & o3 & w3 & o4 & w4 & o5 & w5 & v & abserr
          & HX & H1 & H2 & H3 & H4 & H5 & H6 & ->)%notebook_completed_iff.
  destruct (grid_lookup X HX) as [Hlen Hi].
  exists X. cbn [globals calls]. split; [by simplify_map_eq|].
  split; [done|]. split; [done|].
  split; [rewrite Hi by lia; f_equal; simpl; lra|].
  split; [rewrite Hi by lia; f_equal; rewrite INR_IZR_INZ;
          change (Z.of_nat 99) with 99; lra|].
  split.
  { intros i x y Hx Hy.
    assert (S i < 100)%nat as Hlt by (rewrite <-Hlen; by eapply lookup_lt_Some).
    rewrite Hi in Hx, Hy by lia.
    assert (x = (INR i / 99)%R) as -> by congruence.
    assert (y = (INR (S i) / 99)%R) as -> by congruence.
    rewrite S_INR. lra. }
  split.
  { intros i j x y Hij Hx Hy.
    assert (j < 100)%nat as Hlt by (rewrite <-Hlen; by eapply lookup_lt_Some).
    rewrite Hi in Hx, Hy by lia.
    assert (x = (INR i / 99)%R) as -> by congruence.
    assert (y = (INR j / 99)%R) as -> by congruence.
    apply lt_INR in Hij. lra. }
  split.
  { eexists. apply list_elem_of_lookup. by exists 1%nat. }
  exists 0%R, 1%R. split; [apply list_elem_of_lookup; by exists 5%nat|].
  split.
  - rewrite head_lookup, Hi by lia. f_equal. simpl. lra.
  - rewrite last_lookup, Hlen, Hi by (simpl; lia). f_equal. rewrite INR_IZR_INZ.
    change (Z.of_nat (Nat.pred 100)) with 99. lra.
Qed.



(** ** The theorems at concrete runs *)

Lemma recorded_run_completes :
  notebook null_plt (replay_quad 0) (fresh 0%nat) = (Ok tt, recorded_run).
Proof. vm_compute. reflexivity. Defined.

Lemma headless_run_raises :
  notebook headless_plt (replay_quad 0) (fresh 0%nat)
  = (Raise (LibraryError 0), headless_run).
Proof. vm_compute. reflexivity. Defined.

Lemma fct_squares_witness :
  notebook null_plt (replay_quad 0) (fresh 0%nat) = (Ok tt, recorded_run) ∧
  Float64.valid Float64.half = true ∧
  globals recorded_run !! "fct" = Some (VFunction fct).
Proof.
  split; [exact recorded_run_completes|]. split; [reflexivity|].
  exact (proj1 (proj2 (proj2 (proj2 (proj2 (proj2
    (fct_squares (libm := exact_libm) null_plt (replay_quad 0) 0%nat (Ok tt)
       recorded_run Float64.half recorded_run_completes eq_refl))))))).
Defined.

Lemma quad_called_once_witness :
  notebook null_plt (replay_quad 0) (fresh 0%nat) = (Ok tt, recorded_run) ∧
  ∃ v, globals recorded_run !! "reference" = Some (VFloat v).
Proof.
  split; [exact recorded_run_completes|].
  destruct (quad_called_once null_plt (replay_quad 0) 0%nat recorded_run
              recorded_run_completes)
    as (v & abserr & _ & _ & _ & _ & _ & Href & _).
  exists v. exact Href.
Defined.

Lemma Fct_elementwise_witness :
  Fct (H := float_pow2 (H := exact_libm)) [Float64.half; Float64.one]
  = Ok [Float64.quarter; Float64.one] ∧
  [Float64.half; Float64.one] !! 0%nat = Some Float64.half ∧
  ∃ y, [Float64.quarter; Float64.one] !! 0%nat = Some y ∧
       fct (H := float_pow2 (H := exact_libm)) Float64.half = Ok y.
Proof.
  assert (Fct (H := float_pow2 (H := exact_libm)) [Float64.half; Float64.one]
          = Ok [Float64.quarter; Float64.one]) as E by (vm_compute; reflexivity).
  split; [exact E|]. split; [reflexivity|].
  exact (proj1 (proj2 (Fct_elementwise (H := float_pow2 (H := exact_libm))
                         [Float64.half; Float64.one]
                         [Float64.quarter; Float64.one] 0 Float64.half
                         E eq_refl))).
Defined.

Lemma bindings_preserved_witness :
  notebook null_plt (replay_quad 0) (fresh 0%nat) = (Ok tt, recorded_run) ∧
  globals recorded_run !! "lb" = Some (VInt 0).
Proof.
  split; [exact recorded_run_completes|].
  exact (proj1 (proj2 (proj2 (bindings_preserved null_plt (replay_quad 0) 0%nat
                                (Ok tt) recorded_run recorded_run_completes)))).
Defined.

Lemma library_exceptions_propagate_witness :
  notebook headless_plt (replay_quad 0) (fresh 0%nat)
  = (Raise (LibraryError 0), headless_run) ∧
  ∃ cs c, calls headless_run = cs ++ [(c, Raised (LibraryError 0))].
Proof.
  split; [exact headless_run_raises|].
  exact (proj1 (proj1 (proj2 (library_exceptions_propagate headless_plt
                                (replay_quad 0) 0%nat _ headless_run
                                headless_run_raises))
                 (LibraryError 0)) eq_refl).
Defined.

Lemma fct_nonnegative_witness :
  notebook null_plt (replay_quad 0) (fresh 0%nat) = (Ok tt, recorded_run) ∧
  (0 <= 1)%R ∧
  ∀ pr : Riemann_integrable (integrand fct) 0 1, (0 <= RiemannInt pr)%R.
Proof.
  split; [exact recorded_run_completes|]. split; [exact Rle_0_1|].
  exact (proj2 (proj2 (proj2 (proj2 (proj2 (fct_nonnegative
                                              (libm := exact_libm) null_plt
                                              (replay_quad 0) 0%nat (Ok tt)
                                              recorded_run 0%R 1%R
                                              recorded_run_completes
                                              Rle_0_1)))))).
Defined.

Lemma grid_uniform_witness :
  notebook null_plt (replay_quad 0) (fresh 0%nat) = (Ok tt, recorded_run) ∧
  ∃ X, globals recorded_run !! "X" = Some (VArray X) ∧ length X = 100%nat.
Proof.
  split; [exact recorded_run_completes|].
  destruct (grid_uniform null_plt (replay_quad 0) 0%nat recorded_run
              recorded_run_completes) as (X & HX & _ & Hlen & _).
  exists X. split; [exact HX|exact Hlen].
Defined.


(** * The cells from any kernel *)

Ltac mstep :=
  repeat (rewrite bind_assoc || rewrite bind_lift_ok || rewrite bind_ret
          || rewrite bind_store).

Section Cells.
Context {W Obj : Type} (plt : pyplot W Obj) (quad : quad_api).
Implicit Types k : kernel W.

Lemma bind_load_none {B} name (f : value → M W B) k :
  globals k !! name = None → (load name ≫= f) k = (Raise (NameError name), k).
Proof. intros H. rewrite bind_run. unfold load. by rewrite H. Qed.

Lemma bind_lift_raise {A B} (e : exn) (f : A → M W B) k :
  (lift (Raise e) ≫= f) k = (Raise e, k).
Proof. reflexivity. Qed.

(** After the figure call, the plot cell reads the three names, builds the
    grid and goes on with [plot_rest]. *)
Lemma plt_call_inv c (f : W → result (Obj * W)) k r k' :
  plt_call c f k = (r, k') →
  globals k' = globals k ∧ stdout k' = stdout k ∧
  ∃ o, calls k' = calls k ++ [(c, o)] ∧
       match o with
       | Returned => ∃ obj, r = Ok obj ∧ f (figures k) = Ok (obj, figures k')
       | Raised e => r = Raise e ∧ f (figures k) = Raise e ∧ figures k' = figures k
       end.
Proof.
  unfold plt_call. destruct (f (figures k)) as [[obj w]|e]; intros [= <- <-].
  - repeat split. exists Returned. split; [done|]. by exists obj.
  - repeat split. by exists (Raised e).
Qed.

(** X1: run on a kernel where [lb] is not bound (the definitions cell has
    not been run), the plot cell first calls [plt.figure()]; if that returns
    the cell raises [NameError] for [lb], otherwise the exception of the
    call; it makes no other library call, binds nothing and prints
    nothing. *)
Theorem plot_cell_before_defs k :
  globals k !! "lb" = None →
  ∃ o,
    calls (cell_plot plt k).2 = calls k ++ [(CallFigure, o)] ∧
    globals (cell_plot plt k).2 = globals k ∧
    stdout (cell_plot plt k).2 = stdout k ∧
    (cell_plot plt k).1 = match o with
                          | Returned => Raise (NameError "lb")
                          | Raised e => Raise e
                          end.
Proof.
  intros Hlb. unfold cell_plot. rewrite bind_run.
  destruct (plt_call CallFigure (plt_figure plt) k) as [r k1] eqn:E.
  apply plt_call_inv in E as (Hg & Hs & o & Hc & Ho).
  exists o. destruct o as [|e].
  - destruct Ho as (obj & -> & _).
    rewrite bind_load_none by congruence. done.
  - destruct Ho as (-> & _). done.
Qed.

(** X2: the quadrature cell reads [fct], then [lb], then [ub]; the first of
    them that is not bound is reported by a [NameError], [quad] is not called
    and the kernel is left exactly as it was. *)
Theorem quad_cell_name_errors k :
  (globals k !! "fct" = None →
   cell_quad quad k = (Raise (NameError "fct"), k)) ∧
  (is_Some (globals k !! "fct") → globals k !! "lb" = None →
   cell_quad quad k = (Raise (NameError "lb"), k)) ∧
  (is_Some (globals k !! "fct") → is_Some (globals k !! "lb") →
   globals k !! "ub" = None →
   cell_quad quad k = (Raise (NameError "ub"), k)).
Proof.
  unfold cell_quad. split; [|split].
  - intros H. by rewrite bind_load_none.
  - intros [f Hf] H. rewrite (bind_load "fct" f) by done. by rewrite bind_load_none.
  - intros [f Hf] [a Ha] H. rewrite (bind_load "fct" f), (bind_load "lb" a) by done.
    by rewrite bind_load_none.
Qed.

(** The plot cell once its names are read: the general form of
    [cell_plot_run]. *)
Lemma cell_plot_resolved k lbv ubv (a b : R) (n : Z) (f : R → result R) :
  globals k !! "lb" = Some lbv → as_real lbv = Ok a →
  globals k !! "ub" = Some ubv → as_real ubv = Ok b →
  globals k !! "nplots" = Some (VInt n) →
  globals k !! "Fct" = Some (VVectorized f) →
  cell_plot plt k
  = (plt_call CallFigure (plt_figure plt);;
     X ← lift (np.linspace a b n);
     store "X" (VArray X);;
     Y ← lift (np.vectorize f X);
     plt_call (CallPlot X Y) (plt_plot plt X Y);;
     plt_call (CallXlabel "argument") (plt_xlabel plt "argument");;
     plt_call (CallYlabel "value of the function")
              (plt_ylabel plt "value of the function");;
     plt_call CallShow (plt_show plt);;
     mret tt) k.
Proof.
  intros Hlb Ha Hub Hb Hn HF. unfold cell_plot.
  apply bind_ext. intros o1 k1 E1.
  assert (globals k1 = globals k) as Hg.
  { by rewrite <-(plt_call_globals CallFigure (plt_figure plt) k), E1. }
  rewrite (bind_load "lb" lbv), (bind_load "ub" ubv),
    (bind_load "nplots" (VInt n)) by congruence.
  unfold np_linspace. rewrite Ha, Hb. cbn [as_index]. mstep.
  apply bind_ext. intros X k2 E2. injection E2 as _ <-. mstep.
  rewrite (bind_load "X" (VArray X)) by apply lookup_insert_eq.
  rewrite (bind_load "Fct" (VVectorized f))
    by (cbn; rewrite lookup_insert_ne by done; congruence).
  rewrite (bind_load "X" (VArray X)) by apply lookup_insert_eq.
  unfold call_value, plt_plot_values. cbn [as_array]. mstep.
  apply bind_ext. intros Y k3 E3. mstep. reflexivity.
Qed.

Lemma plot_steps_completed (X Y : list R) k k' :
  plot_steps plt X Y k = (Ok tt, k') →
  globals k' = <["X" := VArray X]> (globals k) ∧
  stdout k' = stdout k ∧
  calls k' = calls k ++
    ((λ c, (c, Returned)) <$>
       [CallFigure; CallPlot X Y; CallXlabel "argument";
        CallYlabel "value of the function"; CallShow]).
Proof.
  destruct k as [g w s c]. intros H.
  cbv [plot_steps mbind M_mbind M_bind plt_call store mret M_mret M_ret
       set_globals set_figures log_call globals figures stdout calls] in H.
  repeat match type of H with
  | context [match ?f ?w with Ok _ => _ | Raise _ => _ end] =>
      destruct (f w) as [[? ?]|?] eqn:?
  end; try discriminate.
  injection H as <-. cbn. by rewrite <-!app_assoc.
Qed.

(** X3: whatever numbers [lb] and [ub] are bound to and whatever count
    [nplots >= 2], a plot cell that completes binds [X] to [nplots] points,
    the [i]-th being [lb + i * (ub - lb) / (nplots - 1)], the first [lb] and
    the last [ub]; it binds nothing else, prints nothing, and makes the five
    pyplot calls in order, the plot call on [X] and the squares of [X]. *)
Theorem plot_cell_grid k k' lbv ubv (a b : R) (n : Z) :
  globals k !! "lb" = Some lbv → as_real lbv = Ok a →
  globals k !! "ub" = Some ubv → as_real ubv = Ok b →
  globals k !! "nplots" = Some (VInt n) →
  globals k !! "Fct" = Some (VVectorized fct) →
  2 ≤ n →
  cell_plot plt k = (Ok tt, k') →
  ∃ X,
    globals k' = <["X" := VArray X]> (globals k) ∧
    length X = Z.to_nat n ∧
    (∀ i, (i < Z.to_nat n)%nat →
          X !! i = Some (a + INR i * ((b - a) / IZR (n - 1)))%R) ∧
    head X = Some a ∧
    last X = Some b ∧
    stdout k' = stdout k ∧
    calls k' = calls k ++
      ((λ c, (c, Returned)) <$>
         [CallFigure; CallPlot X ((λ x, x * x)%R <$> X); CallXlabel "argument";
          CallYlabel "value of the function"; CallShow]).
Proof.
  intros Hlb Ha Hub Hb Hn HF Hn2 Hrun.
  destruct (linspace_lookup a b n Hn2) as (X & HX & Hlen & Hi).
  assert (X ≠ []) as Hne by (intros ->; simpl in Hlen; lia).
  rewrite (cell_plot_resolved k lbv ubv a b n fct) in Hrun by done.
  assert (plot_steps plt X ((λ x, x * x)%R <$> X) k = (Ok tt, k')) as Hsteps.
  { rewrite <-Hrun. unfold plot_steps. apply bind_ext. intros o1 k1 _.
    rewrite HX. mstep. by rewrite (vectorize_fct X Hne), bind_lift_ok. }
  apply plot_steps_completed in Hsteps as (Hg & Hs & Hc).
  exists X. split; [done|]. split; [done|]. split; [done|].
  split.
  { rewrite head_lookup, Hi by lia. f_equal. simpl. lra. }
  split; [|done].
  rewrite last_lookup, Hlen, Hi by lia. f_equal.
  rewrite INR_IZR_INZ. replace (Z.of_nat (Nat.pred (Z.to_nat n))) with (n - 1) by lia.
  assert (IZR (n - 1) ≠ 0%R) by (apply not_0_IZR; lia). field. done.
Qed.


Lemma linspace_zero (a b : R) : np.linspace a b 0 = Ok [].
Proof. reflexivity. Qed.

Lemma linspace_negative (a b : R) (n : Z) :
  n < 0 → np.linspace a b n = Raise ValueError.
Proof. intros Hn. unfold np.linspace. by destruct (Z.ltb_spec n 0); [|lia]. Qed.


(** X5: with [nplots <= 0] the plot cell never reaches [plt.plot]: after
    [plt.figure()] it raises [ValueError].  For a negative count
    [np.linspace] refuses and [X] is not bound; for [nplots = 0] the grid
    [X] is bound to the empty array and the vectorized call refuses it. *)
Theorem plot_cell_no_sample k lbv ubv (a b : R) (n : Z) :
  globals k !! "lb" = Some lbv → as_real lbv = Ok a →
  globals k !! "ub" = Some ubv → as_real ubv = Ok b →
  globals k !! "nplots" = Some (VInt n) →
  globals k !! "Fct" = Some (VVectorized fct) →
  n ≤ 0 →
  ∃ o,
    calls (cell_plot plt k).2 = calls k ++ [(CallFigure, o)] ∧
    stdout (cell_plot plt k).2 = stdout k ∧
    (cell_plot plt k).1 = match o with
                          | Returned => Raise ValueError
                          | Raised e => Raise e
                          end ∧
    globals (cell_plot plt k).2
    = match o with
      | Returned => if decide (n = 0) then <["X" := VArray []]> (globals k)
                    else globals k
      | Raised _ => globals k
      end.
Proof.
  intros Hlb Ha Hub Hb Hn HF Hn0.
  rewrite (cell_plot_resolved k lbv ubv a b n fct) by done.
  rewrite bind_run.
  destruct (plt_call CallFigure (plt_figure plt) k) as [r k1] eqn:E.
  apply plt_call_inv in E as (Hg & Hs & o & Hc & Ho).
  exists o. destruct o as [|e].
  - destruct Ho as (obj & -> & _). case_decide as Hz.
    + subst n. rewrite linspace_zero. mstep. cbn. by rewrite Hg.
    + rewrite linspace_negative by lia. by rewrite bind_lift_raise.
  - by destruct Ho as (-> & _).
Qed.

(** X6: from a kernel that binds [fct] to a function and [lb], [ub] to
    numbers, the quadrature cell calls [quad] exactly once, on these three,
    and leaves pyplot alone.  If [quad] returns [(v, abserr)] the cell binds
    [reference] to [v] and prints one line with [v]; if [quad] raises, the
    cell raises the same exception, [reference] keeps whatever binding it
    had and nothing is printed. *)
Theorem quad_cell_outcome k fv lbv ubv (f : R → result R) (a b : R) :
  globals k !! "fct" = Some fv → as_callable fv = Ok f →
  globals k !! "lb" = Some lbv → as_real lbv = Ok a →
  globals k !! "ub" = Some ubv → as_real ubv = Ok b →
  calls (cell_quad quad k).2
  = calls k ++ [(CallQuad f a b, outcome_of (quad f a b))] ∧
  figures (cell_quad quad k).2 = figures k ∧
  match quad f a b with
  | Ok (v, abserr) =>
      (cell_quad quad k).1 = Ok tt ∧
      globals (cell_quad quad k).2 = <["reference" := VFloat v]> (globals k) ∧
      stdout (cell_quad quad k).2
      = stdout k ++ [Print2 "Integral by reference method:" (VFloat v)]
  | Raise e =>
      (cell_quad quad k).1 = Raise e ∧
      globals (cell_quad quad k).2 = globals k ∧
      stdout (cell_quad quad k).2 = stdout k
  end.
Proof.
  intros Hf Hc Hlb Ha Hub Hb. unfold cell_quad.
  rewrite (bind_load "fct" fv), (bind_load "lb" lbv), (bind_load "ub" ubv) by done.
  unfold call_quad. rewrite Hc, Ha, Hb. mstep.
  rewrite bind_run. unfold quad_call.
  destruct (quad f a b) as [[v abserr]|e]; [|done].
  mstep. rewrite (bind_load "reference" (VFloat v)) by apply lookup_insert_eq.
  done.
Qed.

(** *** The definitions cell *)

Lemma defs_globals_lookup (g : gmap string value) (name : string) :
  defs_globals g !! name
  = if decide ("Fct" = name) then Some (VVectorized fct)
    else if decide ("fct" = name) then Some (VFunction fct)
    else if decide ("nplots" = name) then Some (VInt 100)
    else if decide ("ub" = name) then Some (VInt 1)
    else if decide ("lb" = name) then Some (VInt 0)
    else g !! name.
Proof. unfold defs_globals. by rewrite !lookup_insert. Qed.

(** *** Cells run again, and in another order *)

Lemma cell_plot_default_completed k k' :
  globals k !! "lb" = Some (VInt 0) →
  globals k !! "ub" = Some (VInt 1) →
  globals k !! "nplots" = Some (VInt 100) →
  globals k !! "Fct" = Some (VVectorized fct) →
  cell_plot plt k = (Ok tt, k') →
  ∃ X, np.linspace 0 1 100 = Ok X ∧
       plot_steps plt X ((λ x, x * x)%R <$> X) k = (Ok tt, k') ∧
       globals k' = <["X" := VArray X]> (globals k) ∧
       stdout k' = stdout k ∧
       calls k' = calls k ++
         ((λ c, (c, Returned)) <$>
            [CallFigure; CallPlot X ((λ x, x * x)%R <$> X);
             CallXlabel "argument"; CallYlabel "value of the function";
             CallShow]).
Proof.
  intros Hlb Hub Hn HF Hrun.
  destruct (linspace_lookup 0 1 100) as (X & HX & Hlen & _); [lia|].
  assert (X ≠ []) as Hne by (by intros ->).
  rewrite (cell_plot_run plt k X ((λ x, x * x)%R <$> X)) in Hrun
    by (try done; by apply vectorize_fct).
  exists X. split; [done|]. split; [done|].
  by apply plot_steps_completed.
Qed.

Lemma quad_steps_ok k (v abserr : R) :
  quad fct 0%R 1%R = Ok (v, abserr) →
  quad_steps quad k
  = (Ok tt,
     {| globals := <["reference" := VFloat v]> (globals k);
        figures := figures k;
        stdout := stdout k ++ [Print2 "Integral by reference method:" (VFloat v)];
        calls := calls k ++ [(CallQuad fct 0 1, Returned)] |}).
Proof.
  intros Hq. unfold quad_steps. rewrite bind_run. unfold quad_call.
  rewrite Hq. reflexivity.
Qed.

(** X8: running the whole notebook a second time in the kernel a completed
    run left changes no binding; it prints the same line once more and makes
    the same six library calls, with the same arguments, once more. *)
Theorem notebook_rerun (w : W) k k' :
  notebook plt quad (fresh w) = (Ok tt, k) →
  notebook plt quad k = (Ok tt, k') →
  globals k' = globals k ∧
  stdout k' = stdout k ++ stdout k ∧
  calls k' = calls k ++ calls k.
Proof.
  intros (X & o1 & w1 & o2 & w2 & o3 & w3 & o4 & w4 & o5 & w5 & v & abserr
          & HX & H1 & H2 & H3 & H4 & H5 & H6 & ->)%notebook_completed_iff.
  unfold notebook. rewrite bind_run, cell_defs_run, bind_run.
  set (g := <["reference" := VFloat v]> (<["X" := VArray X]> (defs_globals ∅))).
  destruct (cell_plot plt _) as [[[]|e] k2] eqn:Ep; [|discriminate].
  apply cell_plot_default_completed in Ep
      as (X' & HX' & _ & Hg & Hs & Hc);
    [|cbn; by rewrite defs_globals_lookup..].
  assert (X' = X) as -> by congruence.
  rewrite cell_quad_run
    by (rewrite Hg, lookup_insert_ne by done; cbn; by rewrite defs_globals_lookup).
  rewrite (quad_steps_ok k2 v abserr H6). intros [= <-]. cbn.
  rewrite Hg, Hs, Hc. cbn. split; [|split; [done|]].
  - apply map_eq. intros name. subst g.
    rewrite !lookup_insert, !defs_globals_lookup, !lookup_insert,
      !defs_globals_lookup.
    by repeat case_decide.
  - reflexivity.
Qed.

(** X9: the plotting cell and the quadrature cell can be swapped: when the
    notebook completes, running cell [4] before cell [3] completes too, and
    leaves the same bindings, the same printed line and the same pyplot
    state; the same library calls are made, [quad] first. *)
Theorem quad_cell_before_plot_cell (w : W) k :
  notebook plt quad (fresh w) = (Ok tt, k) →
  ∃ k',
    (cell_defs;; cell_quad quad;; cell_plot plt) (fresh w) = (Ok tt, k') ∧
    globals k' = globals k ∧
    stdout k' = stdout k ∧
    figures k' = figures k ∧
    calls k' ≡ₚ calls k.
Proof.
  intros (X & o1 & w1 & o2 & w2 & o3 & w3 & o4 & w4 & o5 & w5 & v & abserr
          & HX & H1 & H2 & H3 & H4 & H5 & H6 & ->)%notebook_completed_iff.
  assert (np.vectorize fct X = Ok ((λ x, x * x)%R <$> X)) as HY.
  { apply vectorize_fct. intros ->. by apply grid_lookup in HX as [? _]. }
  eexists. split.
  { rewrite bind_run, cell_defs_run, bind_run, cell_quad_run by done.
    rewrite (quad_steps_ok _ v abserr H6).
    rewrite (cell_plot_run plt _ X ((λ x, x * x)%R <$> X)) by done.
    cbv [plot_steps mbind M_mbind M_bind plt_call store mret M_mret M_ret
         set_globals set_figures log_call fresh globals figures stdout calls].
    rewrite H1, H2, H3, H4, H5. reflexivity. }
  cbn. split; [|split; [done|split; [done|]]].
  - by apply insert_insert_ne.
  - by rewrite (Permutation_cons_append _ (CallQuad fct 0 1, Returned)).
Qed.

(** X10: what a run leaves behind, whatever its outcome: a line is printed
    and [reference] is bound only if the run completes, [X] is bound exactly
    when [plt.figure()] returned, and between one and six library calls are
    made. *)
Theorem run_leaves_partial_state (w : W) (r : result unit) k :
  notebook plt quad (fresh w) = (r, k) →
  (r ≠ Ok tt → stdout k = []) ∧
  (is_Some (globals k !! "reference") ↔ r = Ok tt) ∧
  (is_Some (globals k !! "X") ↔ (CallFigure, Returned) ∈ calls k) ∧
  (length (stdout k) ≤ 1)%nat ∧
  (1 ≤ length (calls k) ≤ 6)%nat.
Proof.
  intros Hrun. run_outcomes Hrun X HX; cbn [globals stdout calls length].
  all: split; [by intros ?|].
  all: split; [split; [intros [? Hl]; by lookup_cases Hl|by intros ?]|].
  all: split;
    [split; [intros [? Hl]; try (apply list_elem_of_lookup; by exists 0%nat);
             by lookup_cases Hl
            |intros Hin; try (by eexists);
             apply list_elem_of_In in Hin; cbn in Hin;
             destruct Hin as [[=]|[]]]|].
  all: lia.
Qed.
End Cells.

(** * The integrand *)

(** X11: the integrand is even: [fct(-x)] is [fct(x)] on reals, on integers
    and on floats, where it returns the same float or raises the same
    [OverflowError]. *)
Theorem fct_even {libm : Float64.Libm} :
  (∀ x : R, fct (- x)%R = fct x) ∧
  (∀ n : Z, fct (- n) = fct n) ∧
  (∀ x : Float64.float, fct (SFopp x) = fct x).
Proof.
  split; [|split].
  - intros x. rewrite !fct_real. f_equal. lra.
  - intros n. rewrite !fct_int. f_equal. lia.
  - intros x. rewrite !fct_float. apply pow2_opp.
Qed.

(** X12: for any bounds, in either order, the integral of [fct] exists and
    is [ub^3/3 - lb^3/3]; swapping the bounds changes its sign, and the
    integral over [[a, b]] is the sum of those over [[a, c]] and [[c, b]]. *)
Theorem integral_any_bounds (a b : R) :
  inhabited (Riemann_integrable (integrand fct) a b) ∧
  (∀ pr : Riemann_integrable (integrand fct) a b,
     RiemannInt pr = (cube_third b - cube_third a)%R) ∧
  (∀ (pr : Riemann_integrable (integrand fct) a b)
     (pr' : Riemann_integrable (integrand fct) b a),
     RiemannInt pr' = (- RiemannInt pr)%R) ∧
  (∀ (c : R) (pr1 : Riemann_integrable (integrand fct) a c)
     (pr2 : Riemann_integrable (integrand fct) c b)
     (pr : Riemann_integrable (integrand fct) a b),
     RiemannInt pr = (RiemannInt pr1 + RiemannInt pr2)%R).
Proof.
  assert (∀ u v, Riemann_integrable (integrand fct) u v) as Hitg.
  { intros u v. destruct (Rle_dec u v) as [Huv|Huv].
    - apply continuity_implies_RiemannInt; [done|].
      intros x _. apply integrand_fct_continuous.
    - apply RiemannInt_P1, continuity_implies_RiemannInt; [lra|].
      intros x _. apply integrand_fct_continuous. }
  assert (∀ u v (pr : Riemann_integrable (integrand fct) u v),
            RiemannInt pr = (cube_third v - cube_third u)%R) as Hval.
  { intros u v pr. unfold cube_third. destruct (Rle_dec u v) as [Huv|Huv].
    - by apply integral_fct.
    - rewrite (RiemannInt_P8 pr (Hitg v u)), (integral_fct v u) by lra. lra. }
  split; [constructor; apply Hitg|]. split; [apply Hval|]. split.
  - intros pr pr'. rewrite !Hval. lra.
  - intros c pr1 pr2 pr. rewrite !Hval. lra.
Qed.

(** C10 leaves the floats of the notebook's own interval untouched. *)
Lemma leb_one (s : bool) (m : positive) (e : Z) :
  Float64.leb (Float64.abs (S754_finite s m e)) Float64.one = true → e ≤ -52.
Proof.
  unfold Float64.leb, Float64.abs, Float64.one, SFleb, SFabs, SFcompare.
  destruct (Z.compare_spec e (-52)) as [->|Hlt|Hgt]; [lia|lia|discriminate].
Qed.

(** X13: on every float of magnitude at most [1.0], hence on every point
    of [[0, 1]] that the plot or [quad] passes to it, [fct] returns, and
    what it returns is a float that is finite and not negative. *)
Theorem fct_on_unit_interval {libm : Float64.Libm} (x : Float64.float) :
  Float64.valid x = true →
  Float64.is_finite x = true →
  Float64.leb (Float64.abs x) Float64.one = true →
  ∃ y, fct x = Ok y ∧
       Float64.is_finite y = true ∧ Float64.is_nonneg y = true.
Proof.
  intros Hv Hfin Hle. rewrite fct_float. apply pow2_returns_below; [done..|].
  destruct x as [s|s| |s m e]; try done.
  apply leb_one in Hle.
  destruct (Float64.leb _ _) eqn:E; [|done].
  apply (leb_two_pow_512 s m e Hv) in E. lia.
Qed.

(** ** These theorems at concrete kernels *)

Lemma plot_cell_before_defs_witness :
  globals (fresh 0%nat) !! "lb" = None ∧
  ∃ o, calls (cell_plot null_plt (fresh 0%nat)).2
       = calls (fresh 0%nat) ++ [(CallFigure, o)].
Proof.
  split; [reflexivity|].
  destruct (plot_cell_before_defs null_plt (fresh 0%nat) eq_refl)
    as (o & Hc & _).
  exists o. exact Hc.
Defined.

Lemma quad_cell_name_errors_witness :
  globals (fresh 0%nat) !! "fct" = None ∧
  cell_quad (replay_quad 0) (fresh 0%nat)
  = (Raise (NameError "fct"), fresh 0%nat).
Proof.
  split; [reflexivity|].
  exact (proj1 (quad_cell_name_errors (replay_quad 0) (fresh 0%nat)) eq_refl).
Defined.

Lemma with_nplots_3_completes :
  cell_plot null_plt (with_nplots 3)
  = (Ok tt, (cell_plot null_plt (with_nplots 3)).2).
Proof. vm_compute. reflexivity. Defined.

Lemma plot_cell_grid_witness :
  globals (with_nplots 3) !! "nplots" = Some (VInt 3) ∧
  2 ≤ 3 ∧
  ∃ X, length X = 3%nat ∧ head X = Some 0%R ∧ last X = Some 1%R.
Proof.
  split; [reflexivity|]. split; [lia|].
  destruct (plot_cell_grid null_plt (with_nplots 3)
              (cell_plot null_plt (with_nplots 3)).2 (VInt 0) (VInt 1) 0 1 3
              eq_refl eq_refl eq_refl eq_refl eq_refl eq_refl
              ltac:(lia) with_nplots_3_completes)
    as (X & _ & Hlen & _ & Hhead & Hlast & _).
  exists X. split; [exact Hlen|]. split; [exact Hhead|exact Hlast].
Defined.



Lemma plot_cell_no_sample_witness :
  globals (with_nplots 0) !! "nplots" = Some (VInt 0) ∧
  0 ≤ 0 ∧
  ∃ o, calls (cell_plot null_plt (with_nplots 0)).2
       = calls (with_nplots 0) ++ [(CallFigure, o)].
Proof.
  split; [reflexivity|]. split; [lia|].
  destruct (plot_cell_no_sample null_plt (with_nplots 0) (VInt 0) (VInt 1)
              0 1 0 eq_refl eq_refl eq_refl eq_refl eq_refl eq_refl
              ltac:(lia))
    as (o & Hc & _).
  exists o. exact Hc.
Defined.

Lemma quad_cell_outcome_witness :
  globals defs_kernel !! "fct" = Some (VFunction fct) ∧
  calls (cell_quad (replay_quad 0) defs_kernel).2
  = calls defs_kernel
    ++ [(CallQuad fct 0 1, outcome_of (replay_quad 0 fct 0%R 1%R))].
Proof.
  split; [reflexivity|].
  exact (proj1 (quad_cell_outcome (replay_quad 0) defs_kernel
                  (VFunction fct) (VInt 0) (VInt 1) fct 0 1
                  eq_refl eq_refl eq_refl eq_refl eq_refl eq_refl)).
Defined.

Lemma rerun_completes :
  notebook null_plt (replay_quad 0) recorded_run = (Ok tt, rerun).
Proof. vm_compute. reflexivity. Defined.

Lemma notebook_rerun_witness :
  notebook null_plt (replay_quad 0) (fresh 0%nat) = (Ok tt, recorded_run) ∧
  notebook null_plt (replay_quad 0) recorded_run = (Ok tt, rerun) ∧
  globals rerun = globals recorded_run.
Proof.
  split; [exact recorded_run_completes|]. split; [exact rerun_completes|].
  exact (proj1 (notebook_rerun null_plt (replay_quad 0) 0%nat recorded_run
                  rerun recorded_run_completes rerun_completes)).
Defined.

Lemma quad_cell_before_plot_cell_witness :
  notebook null_plt (replay_quad 0) (fresh 0%nat) = (Ok tt, recorded_run) ∧
  ∃ k', (cell_defs;; cell_quad (replay_quad 0);; cell_plot null_plt)
          (fresh 0%nat) = (Ok tt, k') ∧
        globals k' = globals recorded_run.
Proof.
  split; [exact recorded_run_completes|].
  destruct (quad_cell_before_plot_cell null_plt (replay_quad 0) 0%nat
              recorded_run recorded_run_completes)
    as (k' & Hrun & Hg & _).
  exists k'. split; [exact Hrun|exact Hg].
Defined.

Lemma run_leaves_partial_state_witness :
  notebook headless_plt (replay_quad 0) (fresh 0%nat)
  = (Raise (LibraryError 0), headless_run) ∧
  stdout headless_run = [].
Proof.
  split; [exact headless_run_raises|].
  refine (proj1 (run_leaves_partial_state headless_plt (replay_quad 0) 0%nat
                   _ headless_run headless_run_raises) _).
  discriminate.
Defined.

Lemma fct_on_unit_interval_witness :
  Float64.valid Float64.half = true ∧
  Float64.leb (Float64.abs Float64.half) Float64.one = true ∧
  ∃ y, fct (H := float_pow2 (H := exact_libm)) Float64.half = Ok y ∧
       Float64.is_finite y = true ∧ Float64.is_nonneg y = true.
Proof.
  split; [reflexivity|]. split; [reflexivity|].
  exact (fct_on_unit_interval (libm := exact_libm) Float64.half
           eq_refl eq_refl eq_refl).
Defined.
